(** * opencode-plugin-sema: the adapter of [src/plugin.ts]

    A shallow embedding of the plugin: the port deriver [getPortForDir], the
    health probe [checkServerHealth], the activation body of [SemaPlugin]
    with its bounded polling loop, and the four tool callbacks [sema],
    [sema_find], [sema_refs] and [sema_query].

    Conventions of the embedding.
    - A JavaScript string is the list of its UTF-16 code units.
    - A BigInt is a [Z]; the 64-bit mask of the hash is written out.
    - Calls into the runtime (realpathSync, fetch, which, spawn, sleep) are
      answered by a [World] and logged, in program order, in a trace. They
      may complete abruptly where the runtime can: [realpathSync], [fetch]
      and [spawn] may throw; [which] yields a path or null. The source
      catches what [realpathSync] and [fetch] throw, and has no handler
      around any of its five [spawn] calls. *)

From Stdlib Require Import ZArith List String Ascii Bool Lia DecimalString.
From Stdlib Require Decimal DecimalZ.
Import ListNotations.

Local Open Scope Z_scope.

(** ** JavaScript strings *)

Module JS.

(** A string value: its UTF-16 code units, each in [0, 65536). *)
Definition JSString := list Z.

(** The code units of an ASCII literal of the source. *)
Definition js (s : string) : JSString :=
  map (fun c => Z.of_N (N_of_ascii c)) (list_ascii_of_string s).

(** ToBoolean on a string: only the empty string is falsy. *)
Definition truthy (s : JSString) : bool :=
  match s with
  | [] => false
  | _ :: _ => true
  end.

(** [a || b] on strings. *)
Definition or_else (a b : JSString) : JSString :=
  if truthy a then a else b.

(** ToBoolean on a value that is a string, or undefined / null. *)
Definition truthy_opt (o : option JSString) : bool :=
  match o with
  | Some s => truthy s
  | None => false
  end.

(** The decimal numeral of an integer: an optional minus sign and the
    digits, without leading zeros. *)
Definition decimal (z : Z) : JSString :=
  js (NilZero.string_of_int (Z.to_int z)).

(** The two observations the source makes of a number argument:
    ToBoolean ([if (args.n)]) and ToString ([String(args.n)], the
    stringification of the number in base 10). *)
Class Number (num : Type) : Type := {
  to_boolean : num -> bool;
  to_string : num -> JSString
}.

(** The integer-valued numbers of magnitude up to 2^53 (counts,
    complexities), each given by its value: 0 is the only falsy one, and
    ToString writes the plain decimal numeral. Beyond 2^53 not every
    integer is a number, and from 10^21 on ToString switches to exponent
    notation: nothing below is stated of an integer outside that range. *)
#[export] Instance IntegerNumber : Number Z := {
  to_boolean := fun z => negb (z =? 0);
  to_string := decimal
}.

End JS.

Import JS.

(** ** Port deriver *)

Module Port.

Definition is_high_surrogate (u : Z) : bool := (0xD800 <=? u) && (u <=? 0xDBFF).
Definition is_low_surrogate (u : Z) : bool := (0xDC00 <=? u) && (u <=? 0xDFFF).

(** UTF-8 bytes of one code point. *)
Definition utf8_code_point (cp : Z) : list Z :=
  if cp <? 0x80 then [cp]
  else if cp <? 0x800 then
    [Z.lor 0xC0 (Z.shiftr cp 6); Z.lor 0x80 (Z.land cp 0x3F)]
  else if cp <? 0x10000 then
    [Z.lor 0xE0 (Z.shiftr cp 12);
     Z.lor 0x80 (Z.land (Z.shiftr cp 6) 0x3F);
     Z.lor 0x80 (Z.land cp 0x3F)]
  else
    [Z.lor 0xF0 (Z.shiftr cp 18);
     Z.lor 0x80 (Z.land (Z.shiftr cp 12) 0x3F);
     Z.lor 0x80 (Z.land (Z.shiftr cp 6) 0x3F);
     Z.lor 0x80 (Z.land cp 0x3F)].

(** [Buffer.from(s)]: the UTF-8 encoding of the string. A surrogate pair
    is one code point; a surrogate without its partner is encoded as
    U+FFFD, as the runtime does. *)
Fixpoint Buffer_from (s : JSString) : list Z :=
  match s with
  | [] => []
  | u :: rest =>
      if is_high_surrogate u then
        match rest with
        | lo :: rest' =>
            if is_low_surrogate lo then
              utf8_code_point
                (0x10000 + Z.shiftl (u - 0xD800) 10 + (lo - 0xDC00))
                ++ Buffer_from rest'
            else utf8_code_point 0xFFFD ++ Buffer_from rest
        | [] => utf8_code_point 0xFFFD
        end
      else if is_low_surrogate u then utf8_code_point 0xFFFD ++ Buffer_from rest
      else utf8_code_point u ++ Buffer_from rest
  end.

Definition FNV_OFFSET : Z := 0xcbf29ce484222325.
Definition FNV_PRIME : Z := 0x100000001b3.
Definition MASK64 : Z := 0xffffffffffffffff.

(** One turn of the loop body:
    [h ^= BigInt(byte); h = (h * 0x100000001b3n) & 0xffffffffffffffffn]. *)
Definition hash_step (h byte : Z) : Z :=
  Z.land (Z.lxor h byte * FNV_PRIME) MASK64.

(** The [for (const byte of bytes)] loop, from the state [h]. *)
Definition hash_loop (h : Z) (bytes : list Z) : Z :=
  fold_left hash_step bytes h.

(** [getPortForDir(cwd)]. *)
Definition getPortForDir (cwd : JSString) : Z :=
  let h := hash_loop FNV_OFFSET (Buffer_from cwd) in
  8765 + h mod 1000.

(** The specification's wording of the hash, to compare with the loop:
    start from the offset basis; for each byte, xor it into the hash and
    multiply by the prime, every step taken modulo 2^64. *)
Fixpoint fnv1a64_from (h : Z) (bytes : list Z) : Z :=
  match bytes with
  | [] => h
  | b :: bs => fnv1a64_from (((Z.lxor h b mod 2 ^ 64) * FNV_PRIME) mod 2 ^ 64) bs
  end.

Definition fnv1a64 (bytes : list Z) : Z :=
  fnv1a64_from 0xcbf29ce484222325 bytes.

(** A byte sequence proper: every element in [0, 256). *)
Definition is_bytes (bs : list Z) : Prop :=
  Forall (fun b => 0 <= b < 256) bs.

(** A string proper: every code unit in [0, 65536). *)
Definition is_string (s : JSString) : Prop :=
  Forall (fun u => 0 <= u < 65536) s.

End Port.

Import Port.

(** ** The runtime: what the plugin calls and what it gets back *)

Module Runtime.

Inductive Stdio : Type := Pipe | Ignore.

(** The options object handed to [spawn]; a field left out is [None]. *)
Record SpawnOptions : Type := {
  opt_cwd : option JSString;
  opt_stdio : option (list Stdio);
  opt_stdout : option Stdio;
  opt_stderr : option Stdio
}.

(** A child process as the callbacks observe it: the text read from its
    standard output, the text read from its standard error, and the value
    [proc.exited] resolves to. *)
Record Child : Type := {
  stdout : JSString;
  stderr : JSString;
  exited : Z
}.

(** How the promise of [fetch] settles: with a response carrying a status,
    with a network failure, or aborted by the controller's timer. *)
Inductive FetchOutcome : Type :=
| Responds (status : Z)
| NetworkError
| Aborted.

Record Response : Type := { status : Z }.

(** [res.ok]: the status is in the range 200-299. *)
Definition ok (res : Response) : bool :=
  (200 <=? status res) && (status res <=? 299).

Inductive Error : Type :=
| RealpathError
| FetchError
| AbortError
| SpawnError.

(** One call into the runtime, as logged. [Fetch url ms] is a GET of [url]
    whose abort timer is set to [ms] milliseconds. [Spawn cmd opts] is a
    call of [spawn], whether it returns a process or throws. *)
Inductive Event : Type :=
| Fetch (url : JSString) (abort_after : Z)
| Which (name : JSString)
| Spawn (cmd : list JSString) (opts : SpawnOptions)
| Unref
| Sleep (ms : Z).

(** The answers of the environment. [fetch_of k url] settles the [k]-th
    fetch of the run (counted from 0). [spawn_of cmd opts] is the child
    that [spawn] starts, or [None] where [spawn] throws (the executable
    is not found, the working directory does not exist). *)
Record World : Type := {
  realpath_of : JSString -> option JSString;
  fetch_of : nat -> JSString -> FetchOutcome;
  which_of : JSString -> option JSString;
  spawn_of : list JSString -> SpawnOptions -> option Child
}.

Record State : Type := {
  trace : list Event;
  fetches : nat
}.

Definition initial : State := {| trace := []; fetches := 0 |}.

Definition log (e : Event) (s : State) : State :=
  {| trace := trace s ++ [e]; fetches := fetches s |}.

Inductive Completion (A : Type) : Type :=
| Normal (a : A)
| Throw (e : Error).
Arguments Normal {A} a.
Arguments Throw {A} e.

(** Computations: state passing, with abrupt completion. *)
Definition M (A : Type) : Type := State -> Completion A * State.

Definition ret {A : Type} (a : A) : M A := fun s => (Normal a, s).

Definition bind {A B : Type} (m : M A) (f : A -> M B) : M B :=
  fun s =>
    match m s with
    | (Normal a, s') => f a s'
    | (Throw e, s') => (Throw e, s')
    end.

(** [try { m } catch { h }]. *)
Definition try_catch {A : Type} (m h : M A) : M A :=
  fun s =>
    match m s with
    | (Normal a, s') => (Normal a, s')
    | (Throw _, s') => h s'
    end.

Declare Scope plugin_scope.
Delimit Scope plugin_scope with plugin.
Notation "x <- m ;; k" := (bind m (fun x => k))
  (at level 61, m at next level, right associativity) : plugin_scope.
Notation "m ;; k" := (bind m (fun _ => k))
  (at level 61, right associativity) : plugin_scope.

Section Calls.
Variable w : World.

Definition realpathSync (p : JSString) : M JSString :=
  fun s =>
    match realpath_of w p with
    | Some r => (Normal r, s)
    | None => (Throw RealpathError, s)
    end.

Definition fetch (url : JSString) (abort_after : Z) : M Response :=
  fun s =>
    let s' := {| trace := trace s ++ [Fetch url abort_after];
                 fetches := S (fetches s) |} in
    match fetch_of w (fetches s) url with
    | Responds st => (Normal {| status := st |}, s')
    | NetworkError => (Throw FetchError, s')
    | Aborted => (Throw AbortError, s')
    end.

Definition which (name : JSString) : M (option JSString) :=
  fun s => (Normal (which_of w name), log (Which name) s).

Definition spawn (cmd : list JSString) (opts : SpawnOptions) : M Child :=
  fun s =>
    match spawn_of w cmd opts with
    | Some child => (Normal child, log (Spawn cmd opts) s)
    | None => (Throw SpawnError, log (Spawn cmd opts) s)
    end.

Definition unref (c : Child) : M unit :=
  fun s => (Normal tt, log Unref s).

Definition sleep (ms : Z) : M unit :=
  fun s => (Normal tt, log (Sleep ms) s).
End Calls.

End Runtime.

Import Runtime.
Local Open Scope plugin_scope.

(** ** The plugin *)

Module Plugin.

(** The template literal [`http://127.0.0.1:${port}/health`]. *)
Definition health_url (port : Z) : JSString :=
  js "http://127.0.0.1:" ++ decimal port ++ js "/health".

(** [cmd.push(...)]. *)
Definition push (cmd items : list JSString) : list JSString := cmd ++ items.

(** [if (test(args.x)) cmd.push(...args.x...)] on an optional argument:
    an argument left out is [undefined], which fails every test the
    source uses. *)
Definition push_when {A : Type} (test : A -> bool) (o : option A)
    (cmd : list JSString) (items : A -> list JSString) : list JSString :=
  match o with
  | Some v => if test v then push cmd (items v) else cmd
  | None => cmd
  end.

(** The guards of the source: [if (args.flag)] on a boolean,
    [if (args.s)] on a string, [if (args.x !== undefined)]. *)
Definition is_true (b : bool) : bool := b.
Definition is_truthy (s : JSString) : bool := truthy s.
Definition is_defined {A : Type} (_ : A) : bool := true.

Section Arguments.
Context {num : Type} `{Number num}.

Record SemaArgs : Type := {
  query : JSString;
  path : option JSString;
  n : option num;
  lang : option JSString;
  glob : option JSString;
  exclude : option JSString;
  keyword : option bool
}.

Record FindArgs : Type := {
  find_symbol : JSString;
  find_kind : option JSString;
  find_exported : option bool;
  find_prefix : option bool
}.

Record RefsArgs : Type := { refs_symbol : JSString }.

Record QueryArgs : Type := {
  kind : option JSString;
  exported : option bool;
  min_complexity : option num;
  max_complexity : option num;
  role : option JSString;
  parent : option JSString;
  language : option JSString
}.

(** Lines 93-100: the command of the search tool. *)
Definition sema_cmd (args : SemaArgs) : list JSString :=
  let cmd := [js "sema"] in
  let cmd := push_when is_true (keyword args) cmd (fun _ => [js "-k"]) in
  let cmd := push cmd [query args] in
  let cmd := push_when is_truthy (path args) cmd (fun p => [p]) in
  let cmd := push_when to_boolean (n args) cmd
               (fun v => [js "-n"; to_string v]) in
  let cmd := push_when is_truthy (lang args) cmd (fun l => [js "-l"; l]) in
  let cmd := push_when is_truthy (glob args) cmd (fun g => [js "-g"; g]) in
  let cmd := push_when is_truthy (exclude args) cmd
               (fun e => [js "--exclude"; e]) in
  cmd.

(** Lines 123-126: the command of the find tool. *)
Definition find_cmd (args : FindArgs) : list JSString :=
  let cmd := [js "sema"; js "find"; find_symbol args] in
  let cmd := push_when is_truthy (find_kind args) cmd
               (fun k => [js "--kind"; k]) in
  let cmd := push_when is_true (find_exported args) cmd
               (fun _ => [js "--exported"]) in
  let cmd := push_when is_true (find_prefix args) cmd
               (fun _ => [js "--prefix"]) in
  cmd.

(** Line 146: the command of the refs tool. *)
Definition refs_cmd (args : RefsArgs) : list JSString :=
  [js "sema"; js "refs"; refs_symbol args].

(** Lines 172-179: the command of the query tool. *)
Definition query_cmd (args : QueryArgs) : list JSString :=
  let cmd := [js "sema"; js "query"] in
  let cmd := push_when is_truthy (kind args) cmd (fun k => [js "--kind"; k]) in
  let cmd := push_when is_true (exported args) cmd
               (fun _ => [js "--exported"]) in
  let cmd := push_when is_defined (min_complexity args) cmd
               (fun v => [js "--min-complexity"; to_string v]) in
  let cmd := push_when is_defined (max_complexity args) cmd
               (fun v => [js "--max-complexity"; to_string v]) in
  let cmd := push_when is_truthy (role args) cmd (fun r => [js "--role"; r]) in
  let cmd := push_when is_truthy (parent args) cmd
               (fun p => [js "--parent"; p]) in
  let cmd := push_when is_truthy (language args) cmd
               (fun l => [js "--language"; l]) in
  cmd.
End Arguments.

Arguments SemaArgs num : clear implicits.
Arguments QueryArgs num : clear implicits.

(** The options of the four [spawn] calls of the callbacks and of the
    launch of the server. *)
Definition piped : SpawnOptions :=
  {| opt_cwd := None; opt_stdio := None;
     opt_stdout := Some Pipe; opt_stderr := Some Pipe |}.

Definition piped_in (realDir : JSString) : SpawnOptions :=
  {| opt_cwd := Some realDir; opt_stdio := None;
     opt_stdout := Some Pipe; opt_stderr := Some Pipe |}.

Definition detached_in (realDir : JSString) : SpawnOptions :=
  {| opt_cwd := Some realDir; opt_stdio := Some [Ignore; Ignore; Ignore];
     opt_stdout := None; opt_stderr := None |}.

(** The fallback phrases of the four callbacks. *)
Inductive Tool : Type := Sema | SemaFind | SemaRefs | SemaQuery.

Definition fallback (t : Tool) : JSString :=
  match t with
  | Sema => js "sema command failed"
  | SemaFind => js "sema find command failed"
  | SemaRefs => js "sema refs command failed"
  | SemaQuery => js "sema query command failed"
  end.

Section Body.
Variable w : World.
Context {num : Type} `{Number num}.

(** Lines 26-36. *)
Definition checkServerHealth (port : Z) (timeout : Z) : M bool :=
  try_catch
    (res <- fetch w (health_url port) timeout ;;
     ret (ok res))
    (ret false).

(** Lines 69-74: the loop [for (let i = 0; i < 30; i++)], by the number
    of turns still to run, [30 - i]. *)
Fixpoint poll (port : Z) (turns : nat) : M unit :=
  match turns with
  | O => ret tt
  | S rest =>
      sleep 100 ;;
      healthy <- checkServerHealth port 500 ;;
      if healthy then ret tt else poll port rest
  end.

(** The tail the four callbacks share word for word but for the options
    of [spawn] and the fallback phrase (lines 102-110, 128-136, 148-156,
    181-189). *)
Definition run (t : Tool) (cmd : list JSString) (opts : SpawnOptions)
    : M JSString :=
  proc <- spawn w cmd opts ;;
  let output := stdout proc in
  let exitCode := exited proc in
  if negb (exitCode =? 0) then
    let stderr := stderr proc in
    ret (js "Error: " ++ or_else stderr (fallback t))
  else ret output.

Record Hooks : Type := {
  sema : SemaArgs num -> M JSString;
  sema_find : FindArgs -> M JSString;
  sema_refs : RefsArgs -> M JSString;
  sema_query : QueryArgs num -> M JSString
}.

(** Lines 78-193: the callbacks, closed over [realDir]. *)
Definition tools (realDir : JSString) : Hooks :=
  {| sema := fun args => run Sema (sema_cmd args) piped;
     sema_find := fun args => run SemaFind (find_cmd args) (piped_in realDir);
     sema_refs := fun args => run SemaRefs (refs_cmd args) (piped_in realDir);
     sema_query := fun args =>
       run SemaQuery (query_cmd args) (piped_in realDir) |}.

(** Lines 57-76: the supervision of the server. *)
Definition supervise (realDir : JSString) (port : Z) : M unit :=
  healthy <- checkServerHealth port 500 ;;
  if negb healthy then
    semaPath <- which w (js "sema") ;;
    if truthy_opt semaPath then
      child <- spawn w [js "sema"; js "serve"] (detached_in realDir) ;;
      unref child ;;
      poll port 30
    else ret tt
  else ret tt.

(** Lines 45-194. *)
Definition SemaPlugin (directory : JSString) : M Hooks :=
  realDir <- try_catch (realpathSync w directory) (ret directory) ;;
  let port := getPortForDir realDir in
  supervise realDir port ;;
  ret (tools realDir).
End Body.

End Plugin.

Import Plugin.

(** ** Calls of the host into the registered callbacks *)

Module Host.

Section Calls.
Context {num : Type} `{Number num}.

(** One tool call: which callback, with which arguments. *)
Inductive Call : Type :=
| CallSema (args : SemaArgs num)
| CallFind (args : FindArgs)
| CallRefs (args : RefsArgs)
| CallQuery (args : QueryArgs num).

Definition tool_of (c : Call) : Tool :=
  match c with
  | CallSema _ => Sema
  | CallFind _ => SemaFind
  | CallRefs _ => SemaRefs
  | CallQuery _ => SemaQuery
  end.

(** The host runs the callback the call names. *)
Definition invoke (hooks : Hooks) (c : Call) : M JSString :=
  match c with
  | CallSema args => sema hooks args
  | CallFind args => sema_find hooks args
  | CallRefs args => sema_refs hooks args
  | CallQuery args => sema_query hooks args
  end.

Definition cmd_of (c : Call) : list JSString :=
  match c with
  | CallSema args => sema_cmd args
  | CallFind args => find_cmd args
  | CallRefs args => refs_cmd args
  | CallQuery args => query_cmd args
  end.
End Calls.

Arguments Call num : clear implicits.

(** The directory the callbacks are closed over: the real path of the
    plugin's directory, or the directory itself where resolution throws. *)
Definition resolved (w : World) (directory : JSString) : JSString :=
  match realpath_of w directory with
  | Some r => r
  | None => directory
  end.

(** The options the callback of a call hands to [spawn]. *)
Definition opts_of {num : Type} (realDir : JSString) (c : Call num)
    : SpawnOptions :=
  match c with
  | CallSema _ => piped
  | CallFind _ => piped_in realDir
  | CallRefs _ => piped_in realDir
  | CallQuery _ => piped_in realDir
  end.

(** Whether the [k]-th fetch of the run, a GET of [url], is answered with
    a status in 200-299. *)
Definition answers_2xx (w : World) (k : nat) (url : JSString) : bool :=
  match fetch_of w k url with
  | Responds st => (200 <=? st) && (st <=? 299)
  | NetworkError => false
  | Aborted => false
  end.

(** The trace of [k] poll attempts: each a sleep of 100 ms, then a probe. *)
Fixpoint polls (url : JSString) (k : nat) : list Event :=
  match k with
  | O => []
  | S k' => Sleep 100 :: Fetch url 500 :: polls url k'
  end.

(** The address probed during the activation for a directory. *)
Definition probe_url (w : World) (directory : JSString) : JSString :=
  health_url (getPortForDir (resolved w directory)).

(** The trace of a launch: the first probe finds no server, the binary is
    looked up, the server spawned and detached. *)
Definition launch (realDir url : JSString) : list Event :=
  [Fetch url 500; Which (js "sema");
   Spawn [js "sema"; js "serve"] (detached_in realDir); Unref].

(** The number of probes made after a sleep, in a trace. *)
Fixpoint poll_attempts (tr : list Event) : nat :=
  match tr with
  | Sleep _ :: Fetch _ _ :: rest => S (poll_attempts rest)
  | _ :: rest => poll_attempts rest
  | [] => O
  end.

Definition is_spawn (e : Event) : bool :=
  match e with
  | Spawn _ _ => true
  | _ => false
  end.

(** The [spawn] calls of a trace, in order. *)
Definition spawns (tr : list Event) : list Event := filter is_spawn tr.

(** The [spawn] calls of a trace that started a process. *)
Definition started (w : World) (e : Event) : bool :=
  match e with
  | Spawn cmd opts =>
      match spawn_of w cmd opts with
      | Some _ => true
      | None => false
      end
  | _ => false
  end.

Definition children (w : World) (tr : list Event) : list Event :=
  filter (started w) tr.

(** The code units of a string back as characters, to read a numeral. *)
Definition unjs (s : JSString) : string :=
  string_of_list_ascii (map (fun u => ascii_of_N (Z.to_N u)) s).

(** The integer a string denotes when read as a base-10 numeral. *)
Definition base10_value (s : JSString) : option Z :=
  option_map Z.of_int (NilZero.int_of_string (unjs s)).

End Host.

Import Host.

(** ** The documented behaviour, in the specification's words *)

Module Spec.

(** A token group that is present exactly when its argument was supplied. *)
Definition if_supplied {A : Type} (o : option A) (items : A -> list JSString)
    : list JSString :=
  match o with
  | Some v => items v
  | None => []
  end.

(** A bare flag that is present exactly when it was requested. *)
Definition if_requested (o : option bool) (flag : JSString) : list JSString :=
  match o with
  | Some true => [flag]
  | _ => []
  end.

Definition binary : JSString := js "sema".

Section Shaping.
Context {num : Type} `{Number num}.

(** Search: binary, "-k" iff keyword mode, the query, the path if
    supplied, then "-n", "-l", "-g", "--exclude" pairs, each iff
    supplied. *)
Definition search_tokens (args : SemaArgs num) : list JSString :=
  [binary]
    ++ if_requested (keyword args) (js "-k")
    ++ [query args]
    ++ if_supplied (path args) (fun p => [p])
    ++ if_supplied (n args) (fun v => [js "-n"; to_string v])
    ++ if_supplied (lang args) (fun l => [js "-l"; l])
    ++ if_supplied (glob args) (fun g => [js "-g"; g])
    ++ if_supplied (exclude args) (fun e => [js "--exclude"; e]).

(** Find-symbol: binary, "find", symbol, then "--kind <kind>" if
    supplied, "--exported" and "--prefix" if requested. *)
Definition find_tokens (args : FindArgs) : list JSString :=
  [binary; js "find"; find_symbol args]
    ++ if_supplied (find_kind args) (fun k => [js "--kind"; k])
    ++ if_requested (find_exported args) (js "--exported")
    ++ if_requested (find_prefix args) (js "--prefix").

(** Find-references: binary, "refs", symbol. *)
Definition refs_tokens (args : RefsArgs) : list JSString :=
  [binary; js "refs"; refs_symbol args].

(** Structural query: binary, "query", then the seven groups in the
    documented order, each iff supplied. *)
Definition query_tokens (args : QueryArgs num) : list JSString :=
  [binary; js "query"]
    ++ if_supplied (kind args) (fun k => [js "--kind"; k])
    ++ if_requested (exported args) (js "--exported")
    ++ if_supplied (min_complexity args)
         (fun v => [js "--min-complexity"; to_string v])
    ++ if_supplied (max_complexity args)
         (fun v => [js "--max-complexity"; to_string v])
    ++ if_supplied (role args) (fun r => [js "--role"; r])
    ++ if_supplied (parent args) (fun p => [js "--parent"; p])
    ++ if_supplied (language args) (fun l => [js "--language"; l]).

(** An optional string counts only when it is not empty, an optional
    number of the search tool only when it is truthy. *)
Definition non_empty (o : option JSString) : option JSString :=
  match o with
  | Some (c :: s) => Some (c :: s)
  | _ => None
  end.

Definition non_falsy (o : option num) : option num :=
  match o with
  | Some v => if to_boolean v then Some v else None
  | None => None
  end.

Definition effective_sema (args : SemaArgs num) : SemaArgs num :=
  {| query := query args;
     path := non_empty (path args);
     n := non_falsy (n args);
     lang := non_empty (lang args);
     glob := non_empty (glob args);
     exclude := non_empty (exclude args);
     keyword := keyword args |}.

Definition effective_find (args : FindArgs) : FindArgs :=
  {| find_symbol := find_symbol args;
     find_kind := non_empty (find_kind args);
     find_exported := find_exported args;
     find_prefix := find_prefix args |}.

Definition effective_query (args : QueryArgs num) : QueryArgs num :=
  {| kind := non_empty (kind args);
     exported := exported args;
     min_complexity := min_complexity args;
     max_complexity := max_complexity args;
     role := non_empty (role args);
     parent := non_empty (parent args);
     language := non_empty (language args) |}.
End Shaping.

(** The result contract as worded: standard output on exit code 0;
    "Error: " and standard error on a non-zero code with standard error
    not empty; the fallback phrase on a non-zero code with standard error
    empty. *)
Definition worded_result (t : Tool) (c : Child) : JSString :=
  if exited c =? 0 then stdout c
  else if truthy (stderr c) then js "Error: " ++ stderr c
       else fallback t.

(** The same with the fallback phrase behind the "Error: " prefix too. *)
Definition prefixed_result (t : Tool) (c : Child) : JSString :=
  if exited c =? 0 then stdout c
  else if truthy (stderr c) then js "Error: " ++ stderr c
       else js "Error: " ++ fallback t.

End Spec.

(** ** Text and its encodings, as the Unicode standard defines them *)

Module Unicode.

(** A text is a sequence of Unicode scalar values: the code points from 0 to
    0x10FFFF that are not surrogates. *)
Definition is_scalar (cp : Z) : bool :=
  ((0 <=? cp) && (cp <? 0xD800)) || ((0xE000 <=? cp) && (cp <? 0x110000)).

Definition is_text (text : list Z) : Prop :=
  Forall (fun cp => is_scalar cp = true) text.

(** UTF-16: a scalar value below 0x10000 is one code unit; another one is a
    high surrogate followed by a low surrogate. *)
Definition utf16_units (cp : Z) : list Z :=
  if cp <? 0x10000 then [cp]
  else [0xD800 + (cp - 0x10000) / 0x400; 0xDC00 + (cp - 0x10000) mod 0x400].

(** The JavaScript string of a text. *)
Definition utf16_encode (text : list Z) : JSString := flat_map utf16_units text.

Definition is_continuation (b : Z) : bool := (0x80 <=? b) && (b <? 0xC0).

(** UTF-8, read: the text a byte sequence encodes, or [None] where the
    sequence is not the UTF-8 encoding of any text (a stray or missing
    continuation byte, an overlong form, a surrogate, a value beyond
    0x10FFFF, an element that is not a byte). *)
Fixpoint utf8_decode (bs : list Z) : option (list Z) :=
  match bs with
  | [] => Some []
  | b0 :: r0 =>
      if (0 <=? b0) && (b0 <? 0x80) then
        option_map (cons b0) (utf8_decode r0)
      else if (0xC2 <=? b0) && (b0 <? 0xE0) then
        match r0 with
        | b1 :: r1 =>
            if is_continuation b1 then
              option_map (cons ((b0 - 0xC0) * 64 + (b1 - 0x80)))
                         (utf8_decode r1)
            else None
        | [] => None
        end
      else if (0xE0 <=? b0) && (b0 <? 0xF0) then
        match r0 with
        | b1 :: b2 :: r2 =>
            let cp := (b0 - 0xE0) * 4096 + (b1 - 0x80) * 64 + (b2 - 0x80) in
            if is_continuation b1 && is_continuation b2
               && (0x800 <=? cp) && is_scalar cp
            then option_map (cons cp) (utf8_decode r2)
            else None
        | _ => None
        end
      else if (0xF0 <=? b0) && (b0 <? 0xF8) then
        match r0 with
        | b1 :: b2 :: b3 :: r3 =>
            let cp := (b0 - 0xF0) * 262144 + (b1 - 0x80) * 4096
                      + (b2 - 0x80) * 64 + (b3 - 0x80) in
            if is_continuation b1 && is_continuation b2 && is_continuation b3
               && (0x10000 <=? cp) && (cp <? 0x110000)
            then option_map (cons cp) (utf8_decode r3)
            else None
        | _ => None
        end
      else None
  end.

(** The bytes [bs] are the UTF-8 encoding of the text. *)
Definition is_utf8_of (text bs : list Z) : Prop := utf8_decode bs = Some text.

(** The text "/tmp/caf", e with acute accent, a space, the euro sign, a
    space, and the code point U+1F600. *)
Definition sample_text : list Z :=
  [0x2F; 0x74; 0x6D; 0x70; 0x2F; 0x63; 0x61; 0x66; 0xE9; 0x20; 0x20AC; 0x20;
   0x1F600].

(** Its UTF-8 encoding. *)
Definition sample_bytes : list Z :=
  [0x2F; 0x74; 0x6D; 0x70; 0x2F; 0x63; 0x61; 0x66; 0xC3; 0xA9; 0x20;
   0xE2; 0x82; 0xAC; 0x20; 0xF0; 0x9F; 0x98; 0x80].

End Unicode.

Import Unicode.

(** ** Concrete inputs used below *)

Module Samples.

(** search with only query = "foo". *)
Definition search_foo : SemaArgs Z :=
  {| query := js "foo"; path := None; n := None; lang := None;
     glob := None; exclude := None; keyword := None |}.

(** search with query = "foo", keyword = true, n = 10. *)
Definition search_foo_keyword_10 : SemaArgs Z :=
  {| query := js "foo"; path := None; n := Some 10; lang := None;
     glob := None; exclude := None; keyword := Some true |}.

(** search with query = "foo" and the empty string as path. *)
Definition search_foo_empty_path : SemaArgs Z :=
  {| query := js "foo"; path := Some (js ""); n := None; lang := None;
     glob := None; exclude := None; keyword := None |}.

(** find-symbol with symbol = "parse" and the empty string as kind. *)
Definition find_parse_empty_kind : FindArgs :=
  {| find_symbol := js "parse"; find_kind := Some (js "");
     find_exported := None; find_prefix := None |}.

(** structural query with the empty string as kind and nothing else. *)
Definition query_empty_kind : QueryArgs Z :=
  {| kind := Some (js ""); exported := None; min_complexity := None;
     max_complexity := None; role := None; parent := None;
     language := None |}.

(** structural query with every argument supplied. *)
Definition query_full : QueryArgs Z :=
  {| kind := Some (js "function"); exported := Some true;
     min_complexity := Some 0; max_complexity := Some 25;
     role := Some (js "definition"); parent := Some (js "HttpClient");
     language := Some (js "zig") |}.

Definition no_output_exit_1 : Child :=
  {| stdout := js ""; stderr := js ""; exited := 1 |}.

Definition boom_exit_1 : Child :=
  {| stdout := js "partial"; stderr := js "boom"; exited := 1 |}.

Definition result_exit_0 : Child :=
  {| stdout := js "RESULT"; stderr := js "warning"; exited := 0 |}.

(** No server ever answers; the binary is installed; every child fails
    without output. *)
Definition world_down : World :=
  {| realpath_of := fun _ => None;
     fetch_of := fun _ _ => NetworkError;
     which_of := fun _ => Some (js "/usr/local/bin/sema");
     spawn_of := fun _ _ => Some no_output_exit_1 |}.

(** A server answers 200 from the first probe on; every child succeeds. *)
Definition world_up : World :=
  {| realpath_of := fun p => Some p;
     fetch_of := fun _ _ => Responds 200;
     which_of := fun _ => Some (js "/usr/local/bin/sema");
     spawn_of := fun _ _ => Some result_exit_0 |}.

(** The server answers from the fourth probe of the run on (the third
    poll); before that the probes time out or get a 503; every child
    fails with "boom" on standard error. *)
Definition world_late : World :=
  {| realpath_of := fun p => Some p;
     fetch_of := fun k _ =>
       match k with
       | O => Aborted
       | S O => NetworkError
       | S (S O) => Responds 503
       | _ => Responds 204
       end;
     which_of := fun _ => Some (js "/usr/local/bin/sema");
     spawn_of := fun _ _ => Some boom_exit_1 |}.

Definition project : JSString := js "/home/dev/project".

End Samples.

(** ** What a trace costs *)

Module Trace.

Definition is_fetch (e : Event) : bool :=
  match e with
  | Fetch _ _ => true
  | _ => false
  end.

(** The number of GET requests of a trace. *)
Definition probes (tr : list Event) : nat :=
  List.length (filter is_fetch tr).

Definition sleep_ms (e : Event) : Z :=
  match e with
  | Sleep ms => ms
  | _ => 0
  end.

(** The milliseconds a trace spends in [sleep]. *)
Definition slept (tr : list Event) : Z :=
  fold_right (fun e acc => sleep_ms e + acc) 0 tr.

(** The ports the deriver can return. *)
Definition port_range : list Z :=
  map (fun i => 8765 + Z.of_nat i) (seq 0 1000).

(** The inverse of the FNV prime modulo 2^64. *)
Definition FNV_PRIME_INVERSE : Z := 0xce965057aff6957b.

End Trace.

Import Trace.

(** ** Further environments *)

Module Scenarios.

(** No server answers and the binary is not installed: the lookup gives
    null and every [spawn] throws. *)
Definition world_no_binary : World :=
  {| realpath_of := fun p => Some p;
     fetch_of := fun _ _ => Responds 404;
     which_of := fun _ => None;
     spawn_of := fun _ _ => None |}.

(** No server answers; the binary is installed, but the directory does not
    exist: its real path cannot be read and a [spawn] in it throws. *)
Definition world_no_directory : World :=
  {| realpath_of := fun _ => None;
     fetch_of := fun _ _ => NetworkError;
     which_of := fun _ => Some (js "/usr/local/bin/sema");
     spawn_of := fun _ opts =>
       match opt_cwd opts with
       | Some _ => None
       | None => Some Samples.no_output_exit_1
       end |}.

(** The binary is installed and starts, but no server ever answers. *)
Definition world_never_up : World :=
  {| realpath_of := fun p => Some p;
     fetch_of := fun _ _ => NetworkError;
     which_of := fun _ => Some (js "/usr/local/bin/sema");
     spawn_of := fun _ _ => Some Samples.no_output_exit_1 |}.

Definition link : JSString := js "/home/dev/link".

Definition same_path (a b : JSString) : bool :=
  if list_eq_dec Z.eq_dec a b then true else false.

(** [/home/dev/link] is a symbolic link to the project; the real path of the
    project itself cannot be read; a server answers. *)
Definition world_symlink : World :=
  {| realpath_of := fun p =>
       if same_path p link then Some Samples.project else None;
     fetch_of := fun _ _ => Responds 200;
     which_of := fun _ => Some (js "/usr/local/bin/sema");
     spawn_of := fun _ _ => Some Samples.result_exit_0 |}.

(** Two children that fail alike but for their standard output and code. *)
Definition boom_exit_2 : Child :=
  {| stdout := js "other"; stderr := js "boom"; exited := 2 |}.

(** Every child fails with "boom" on standard error, code 2. *)
Definition world_boom_2 : World :=
  {| realpath_of := fun p => Some p;
     fetch_of := fun _ _ => NetworkError;
     which_of := fun _ => Some (js "/usr/local/bin/sema");
     spawn_of := fun _ _ => Some boom_exit_2 |}.

(** The bytes of "/a". *)
Definition slash_a : list Z := [0x2F; 0x61].

(** 1001 paths. *)
Definition many_paths : list JSString :=
  map (fun i => js "/srv/" ++ decimal (Z.of_nat i)) (seq 0 1001).

End Scenarios.

(** ** Proof steps on boolean tests over integers *)

Ltac bools :=
  repeat match goal with
  | H : (_ && _) = true |- _ => apply andb_true_iff in H; destruct H
  | H : (_ || _) = true |- _ => apply orb_true_iff in H; destruct H
  | H : (_ && _) = false |- _ => apply andb_false_iff in H; destruct H
  | H : (_ || _) = false |- _ => apply orb_false_iff in H; destruct H
  | H : (_ <=? _) = true |- _ => apply Z.leb_le in H
  | H : (_ <? _) = true |- _ => apply Z.ltb_lt in H
  | H : (_ <=? _) = false |- _ => apply Z.leb_gt in H
  | H : (_ <? _) = false |- _ => apply Z.ltb_ge in H
  end.

Ltac settle :=
  match goal with
  | |- ?c = _ =>
      let E := fresh "E" in
      destruct c eqn:E; try reflexivity; exfalso;
      unfold is_scalar, is_continuation, is_high_surrogate,
        is_low_surrogate in *;
      bools; lia
  end.

(** * Properties *)

(** ** The port deriver *)

Section PortDeriver.

Lemma mask64_ones : MASK64 = Z.ones 64.
Proof. reflexivity. Qed.

Lemma hash_step_mod (h b : Z) :
  hash_step h b = (Z.lxor h b * FNV_PRIME) mod 2 ^ 64.
Proof.
  unfold hash_step. rewrite mask64_ones. apply Z.land_ones. lia.
Qed.

(** The loop state never leaves 64 bits. *)
Lemma hash_step_range (h b : Z) : 0 <= hash_step h b < 2 ^ 64.
Proof.
  rewrite hash_step_mod. apply Z.mod_pos_bound. lia.
Qed.

Lemma hash_loop_range (bytes : list Z) (h : Z) :
  0 <= h < 2 ^ 64 -> 0 <= hash_loop h bytes < 2 ^ 64.
Proof.
  revert h. induction bytes as [|b bs IH]; intros h Hh; simpl.
  - exact Hh.
  - apply IH. apply hash_step_range.
Qed.

(** The loop of the source computes the hash as the specification words it. *)
Lemma hash_loop_fnv1a64_from (bytes : list Z) (h : Z) :
  hash_loop h bytes = fnv1a64_from h bytes.
Proof.
  revert h. induction bytes as [|b bs IH]; intros h; simpl.
  - reflexivity.
  - change (hash_loop (hash_step h b) bs = fnv1a64_from
             (((Z.lxor h b mod 2 ^ 64) * FNV_PRIME) mod 2 ^ 64) bs).
    rewrite IH. f_equal.
    rewrite hash_step_mod. rewrite Z.mul_mod_idemp_l by lia. reflexivity.
Qed.

Lemma lor_small (a b : Z) (k : Z) :
  0 <= k -> 0 <= a < 2 ^ k -> 0 <= b < 2 ^ k -> 0 <= Z.lor a b < 2 ^ k.
Proof.
  intros Hk [Ha0 Ha] [Hb0 Hb]. split.
  - apply Z.lor_nonneg. split; assumption.
  - destruct (Z.eq_dec (Z.lor a b) 0) as [E|E]; [rewrite E; lia|].
    apply Z.log2_lt_cancel. rewrite Z.log2_lor by assumption.
    rewrite Z.log2_pow2 by assumption.
    destruct (Z.eq_dec a 0) as [Ea|Ea]; destruct (Z.eq_dec b 0) as [Eb|Eb]; subst.
    + exfalso. apply E. reflexivity.
    + rewrite Z.max_r by (simpl; apply Z.log2_nonneg).
      apply Z.log2_lt_pow2; lia.
    + rewrite Z.max_l by (simpl; apply Z.log2_nonneg).
      apply Z.log2_lt_pow2; lia.
    + apply Z.max_lub_lt; apply Z.log2_lt_pow2; lia.
Qed.

Lemma land_3F (a : Z) : 0 <= Z.land a 0x3F < 64.
Proof.
  change 0x3F with (Z.ones 6). rewrite Z.land_ones by lia.
  apply Z.mod_pos_bound. lia.
Qed.

Lemma continuation_byte (a : Z) : 0 <= Z.lor 0x80 (Z.land a 0x3F) < 256.
Proof.
  pose proof (land_3F a).
  apply (lor_small 0x80 (Z.land a 0x3F) 8); lia.
Qed.

Lemma shiftr_range (cp k lim : Z) :
  0 <= k -> 0 <= cp < lim * 2 ^ k -> 0 <= Z.shiftr cp k < lim.
Proof.
  intros Hk [H0 H1]. rewrite Z.shiftr_div_pow2 by assumption. split.
  - apply Z.div_pos; lia.
  - apply Z.div_lt_upper_bound; lia.
Qed.

Lemma utf8_code_point_bytes (cp : Z) :
  0 <= cp < 0x110000 -> is_bytes (utf8_code_point cp).
Proof.
  intros Hcp. unfold utf8_code_point, is_bytes.
  destruct (cp <? 0x80) eqn:E1; [apply Z.ltb_lt in E1|apply Z.ltb_ge in E1].
  { repeat constructor; lia. }
  destruct (cp <? 0x800) eqn:E2; [apply Z.ltb_lt in E2|apply Z.ltb_ge in E2].
  { repeat constructor; try apply continuation_byte.
    - apply Z.lor_nonneg. pose proof (shiftr_range cp 6 32). lia.
    - pose proof (shiftr_range cp 6 32).
      apply (lor_small 0xC0 (Z.shiftr cp 6) 8); lia. }
  destruct (cp <? 0x10000) eqn:E3; [apply Z.ltb_lt in E3|apply Z.ltb_ge in E3].
  { repeat constructor; try apply continuation_byte.
    - apply Z.lor_nonneg. pose proof (shiftr_range cp 12 16). lia.
    - pose proof (shiftr_range cp 12 16).
      apply (lor_small 0xE0 (Z.shiftr cp 12) 8); lia. }
  repeat constructor; try apply continuation_byte.
  - apply Z.lor_nonneg. pose proof (shiftr_range cp 18 8). lia.
  - pose proof (shiftr_range cp 18 8).
    apply (lor_small 0xF0 (Z.shiftr cp 18) 8); lia.
Qed.

Lemma is_bytes_app (a b : list Z) :
  is_bytes a -> is_bytes b -> is_bytes (a ++ b).
Proof. intros Ha Hb. apply Forall_app. split; assumption. Qed.

Lemma surrogate_pair_range (u lo : Z) :
  is_high_surrogate u = true -> is_low_surrogate lo = true ->
  0 <= 0x10000 + Z.shiftl (u - 0xD800) 10 + (lo - 0xDC00) < 0x110000.
Proof.
  unfold is_high_surrogate, is_low_surrogate. intros Hu Hl.
  apply andb_true_iff in Hu. apply andb_true_iff in Hl.
  destruct Hu as [Hu1 Hu2]. destruct Hl as [Hl1 Hl2].
  apply Z.leb_le in Hu1, Hu2, Hl1, Hl2.
  rewrite Z.shiftl_mul_pow2 by lia. lia.
Qed.

(** [Buffer.from] of a string is a sequence of bytes. *)
Lemma Buffer_from_bytes (s : JSString) :
  is_string s -> is_bytes (Buffer_from s).
Proof.
  assert (Hboth : (is_string s -> is_bytes (Buffer_from s)) /\
                  (forall u, 0 <= u < 65536 -> is_string s ->
                             is_bytes (Buffer_from (u :: s)))).
  { induction s as [|v s [IH1 IH2]].
    - split; [intros _; constructor|].
      intros u Hu _.
      change (Buffer_from [u]) with
        (if is_high_surrogate u then utf8_code_point 0xFFFD
         else if is_low_surrogate u then utf8_code_point 0xFFFD ++ []
              else utf8_code_point u ++ []).
      destruct (is_high_surrogate u); [apply utf8_code_point_bytes; lia|].
      destruct (is_low_surrogate u); rewrite app_nil_r;
        apply utf8_code_point_bytes; lia.
    - assert (Hv : is_string (v :: s) -> is_bytes (Buffer_from (v :: s))).
      { intros Hs. inversion Hs; subst. apply IH2; assumption. }
      split; [exact Hv|].
      intros u Hu Hs. pose proof (Hv Hs) as Hrest.
      inversion Hs as [|? ? Hv0 Hs']; subst.
      change (Buffer_from (u :: v :: s)) with
        (if is_high_surrogate u then
           if is_low_surrogate v then
             utf8_code_point
               (0x10000 + Z.shiftl (u - 0xD800) 10 + (v - 0xDC00))
               ++ Buffer_from s
           else utf8_code_point 0xFFFD ++ Buffer_from (v :: s)
         else if is_low_surrogate u
              then utf8_code_point 0xFFFD ++ Buffer_from (v :: s)
              else utf8_code_point u ++ Buffer_from (v :: s)).
      destruct (is_high_surrogate u) eqn:Eu.
      + destruct (is_low_surrogate v) eqn:Ev.
        * apply is_bytes_app; [|apply IH1; assumption].
          apply utf8_code_point_bytes. apply surrogate_pair_range; assumption.
        * apply is_bytes_app; [apply utf8_code_point_bytes; lia|assumption].
      + destruct (is_low_surrogate u);
          (apply is_bytes_app; [apply utf8_code_point_bytes; lia|assumption]). }
  apply Hboth.
Qed.

(** A string of ASCII characters is encoded as itself. *)
Lemma Buffer_from_ascii (s : JSString) :
  Forall (fun u => 0 <= u < 0x80) s -> Buffer_from s = s.
Proof.
  induction 1 as [|u s Hu Hs IH]; [reflexivity|].
  assert (E1 : is_high_surrogate u = false).
  { unfold is_high_surrogate. apply andb_false_iff. left. apply Z.leb_gt. lia. }
  assert (E2 : is_low_surrogate u = false).
  { unfold is_low_surrogate. apply andb_false_iff. left. apply Z.leb_gt. lia. }
  assert (E3 : (u <? 0x80) = true) by (apply Z.ltb_lt; lia).
  simpl. rewrite E1, E2. unfold utf8_code_point. rewrite E3.
  simpl. rewrite IH. reflexivity.
Qed.

Example port_of_tmp : getPortForDir (js "/tmp") = 9184.
Proof. reflexivity. Qed.

Example utf8_of_mixed_text :
  Buffer_from [0xE9; 0x20AC; 0xD83D; 0xDE00; 0xD83D; 0x41]
  = [0xC3; 0xA9; 0xE2; 0x82; 0xAC; 0xF0; 0x9F; 0x98; 0x80;
     0xEF; 0xBF; 0xBD; 0x41].
Proof. reflexivity. Qed.

End PortDeriver.

(** ** The bytes that are hashed are the UTF-8 encoding of the path *)

Section Encoding.

(** On disjoint bits, [lor] adds. *)
Lemma lor_add (m x n : Z) :
  0 <= n -> 0 <= x < 2 ^ n -> Z.lor (m * 2 ^ n) x = m * 2 ^ n + x.
Proof.
  intros Hn Hx.
  assert (Hland : Z.land (m * 2 ^ n) x = 0).
  { apply Z.bits_inj'. intros i Hi. rewrite Z.land_spec, Z.bits_0.
    destruct (Z.lt_ge_cases i n) as [Hlow|Hhigh].
    - rewrite Z.mul_pow2_bits_low by assumption. reflexivity.
    - rewrite <- (Z.mod_small x (2 ^ n)) by assumption.
      rewrite Z.mod_pow2_bits_high by lia. apply andb_false_r. }
  rewrite <- Z.lxor_lor by assumption.
  symmetry. apply Z.add_nocarry_lxor. assumption.
Qed.

Lemma continuation_add (x : Z) : 0 <= x < 64 -> Z.lor 0x80 x = 0x80 + x.
Proof. intros Hx. apply (lor_add 2 x 6); lia. Qed.

Lemma lead_2_add (x : Z) : 0 <= x < 32 -> Z.lor 0xC0 x = 0xC0 + x.
Proof. intros Hx. apply (lor_add 3 x 6); lia. Qed.

Lemma lead_3_add (x : Z) : 0 <= x < 16 -> Z.lor 0xE0 x = 0xE0 + x.
Proof. intros Hx. apply (lor_add 7 x 5); lia. Qed.

Lemma lead_4_add (x : Z) : 0 <= x < 8 -> Z.lor 0xF0 x = 0xF0 + x.
Proof. intros Hx. apply (lor_add 15 x 4); lia. Qed.

Lemma low_6_bits (a : Z) : Z.land a 0x3F = a mod 64.
Proof. change 0x3F with (Z.ones 6). rewrite Z.land_ones by lia. reflexivity. Qed.

(** The bytes of a code point, by arithmetic. *)
Lemma utf8_code_point_arith (cp : Z) :
  0 <= cp < 0x110000 ->
  utf8_code_point cp
  = if cp <? 0x80 then [cp]
    else if cp <? 0x800 then [0xC0 + cp / 64; 0x80 + cp mod 64]
    else if cp <? 0x10000 then
      [0xE0 + cp / 4096; 0x80 + (cp / 64) mod 64; 0x80 + cp mod 64]
    else
      [0xF0 + cp / 262144; 0x80 + (cp / 4096) mod 64;
       0x80 + (cp / 64) mod 64; 0x80 + cp mod 64].
Proof.
  intros Hcp. unfold utf8_code_point.
  rewrite !low_6_bits, !Z.shiftr_div_pow2 by lia.
  change (2 ^ 6) with 64. change (2 ^ 12) with 4096. change (2 ^ 18) with 262144.
  assert (H64 : 0 <= cp mod 64 < 64) by (apply Z.mod_pos_bound; lia).
  assert (H64' : 0 <= (cp / 64) mod 64 < 64) by (apply Z.mod_pos_bound; lia).
  assert (H64'' : 0 <= (cp / 4096) mod 64 < 64) by (apply Z.mod_pos_bound; lia).
  rewrite !continuation_add by assumption.
  destruct (cp <? 0x80) eqn:E1; [reflexivity|].
  destruct (cp <? 0x800) eqn:E2.
  { bools. rewrite lead_2_add; [reflexivity|].
    split; [apply Z.div_pos; lia|apply Z.div_lt_upper_bound; lia]. }
  destruct (cp <? 0x10000) eqn:E3.
  { bools. rewrite lead_3_add; [reflexivity|].
    split; [apply Z.div_pos; lia|apply Z.div_lt_upper_bound; lia]. }
  bools. rewrite lead_4_add; [reflexivity|].
  split; [apply Z.div_pos; lia|apply Z.div_lt_upper_bound; lia].
Qed.

Lemma utf8_decode_cons (b0 : Z) (r0 : list Z) :
  utf8_decode (b0 :: r0)
  = if (0 <=? b0) && (b0 <? 0x80) then
      option_map (cons b0) (utf8_decode r0)
    else if (0xC2 <=? b0) && (b0 <? 0xE0) then
      match r0 with
      | b1 :: r1 =>
          if is_continuation b1 then
            option_map (cons ((b0 - 0xC0) * 64 + (b1 - 0x80)))
                       (utf8_decode r1)
          else None
      | [] => None
      end
    else if (0xE0 <=? b0) && (b0 <? 0xF0) then
      match r0 with
      | b1 :: b2 :: r2 =>
          let cp := (b0 - 0xE0) * 4096 + (b1 - 0x80) * 64 + (b2 - 0x80) in
          if is_continuation b1 && is_continuation b2
             && (0x800 <=? cp) && is_scalar cp
          then option_map (cons cp) (utf8_decode r2)
          else None
      | _ => None
      end
    else if (0xF0 <=? b0) && (b0 <? 0xF8) then
      match r0 with
      | b1 :: b2 :: b3 :: r3 =>
          let cp := (b0 - 0xF0) * 262144 + (b1 - 0x80) * 4096
                    + (b2 - 0x80) * 64 + (b3 - 0x80) in
          if is_continuation b1 && is_continuation b2 && is_continuation b3
             && (0x10000 <=? cp) && (cp <? 0x110000)
          then option_map (cons cp) (utf8_decode r3)
          else None
      | _ => None
      end
    else None.
Proof. reflexivity. Qed.

(** Reading the bytes of a scalar value gives the scalar value back. *)
Lemma utf8_decode_code_point (cp : Z) (rest : list Z) :
  is_scalar cp = true ->
  utf8_decode (utf8_code_point cp ++ rest)
  = option_map (cons cp) (utf8_decode rest).
Proof.
  intros Hcp.
  assert (Hrange : 0 <= cp < 0x110000) by (unfold is_scalar in Hcp; bools; lia).
  rewrite (utf8_code_point_arith cp Hrange).
  assert (H64 : 0 <= cp mod 64 < 64) by (apply Z.mod_pos_bound; lia).
  assert (H64' : 0 <= (cp / 64) mod 64 < 64) by (apply Z.mod_pos_bound; lia).
  assert (H64'' : 0 <= (cp / 4096) mod 64 < 64) by (apply Z.mod_pos_bound; lia).
  destruct (cp <? 0x80) eqn:E1.
  { cbn [app]. rewrite utf8_decode_cons.
    assert (T : (0 <=? cp) && (cp <? 0x80) = true) by settle.
    rewrite T. reflexivity. }
  destruct (cp <? 0x800) eqn:E2.
  { cbn [app]. rewrite utf8_decode_cons. bools.
    assert (Hq : 2 <= cp / 64 < 32).
    { split; [apply Z.div_le_lower_bound; lia|apply Z.div_lt_upper_bound; lia]. }
    assert (T1 : (0 <=? 0xC0 + cp / 64) && (0xC0 + cp / 64 <? 0x80) = false)
      by settle.
    assert (T2 : (0xC2 <=? 0xC0 + cp / 64) && (0xC0 + cp / 64 <? 0xE0) = true)
      by settle.
    assert (T3 : is_continuation (0x80 + cp mod 64) = true) by settle.
    rewrite T1, T2, T3. do 2 f_equal.
    pose proof (Z.div_mod cp 64). lia. }
  destruct (cp <? 0x10000) eqn:E3.
  { cbn [app]. rewrite utf8_decode_cons. bools.
    assert (Hq : 0 <= cp / 4096 < 16).
    { split; [apply Z.div_pos; lia|apply Z.div_lt_upper_bound; lia]. }
    assert (Hcp' : (0xE0 + cp / 4096 - 0xE0) * 4096
                   + (0x80 + (cp / 64) mod 64 - 0x80) * 64
                   + (0x80 + cp mod 64 - 0x80) = cp).
    { pose proof (Z.div_mod cp 64). pose proof (Z.div_mod (cp / 64) 64).
      pose proof (Z.div_mod cp 4096).
      assert (cp / 64 / 64 = cp / 4096).
      { rewrite Z.div_div by lia. reflexivity. }
      lia. }
    assert (T1 : (0 <=? 0xE0 + cp / 4096) && (0xE0 + cp / 4096 <? 0x80) = false)
      by settle.
    assert (T2 : (0xC2 <=? 0xE0 + cp / 4096) && (0xE0 + cp / 4096 <? 0xE0)
                 = false) by settle.
    assert (T3 : (0xE0 <=? 0xE0 + cp / 4096) && (0xE0 + cp / 4096 <? 0xF0)
                 = true) by settle.
    assert (T4 : is_continuation (0x80 + (cp / 64) mod 64) = true) by settle.
    assert (T5 : is_continuation (0x80 + cp mod 64) = true) by settle.
    assert (T6 : (0x800 <=? cp) = true) by settle.
    rewrite T1, T2, T3. cbv zeta. rewrite Hcp', T4, T5, T6, Hcp. reflexivity. }
  cbn [app]. rewrite utf8_decode_cons. bools.
  assert (Hq : 0 <= cp / 262144 < 8).
  { split; [apply Z.div_pos; lia|apply Z.div_lt_upper_bound; lia]. }
  assert (Hcp' : (0xF0 + cp / 262144 - 0xF0) * 262144
                 + (0x80 + (cp / 4096) mod 64 - 0x80) * 4096
                 + (0x80 + (cp / 64) mod 64 - 0x80) * 64
                 + (0x80 + cp mod 64 - 0x80) = cp).
  { pose proof (Z.div_mod cp 64). pose proof (Z.div_mod (cp / 64) 64).
    pose proof (Z.div_mod (cp / 4096) 64).
    assert (cp / 64 / 64 = cp / 4096).
    { rewrite Z.div_div by lia. reflexivity. }
    assert (cp / 4096 / 64 = cp / 262144).
    { rewrite Z.div_div by lia. reflexivity. }
    lia. }
  assert (T1 : (0 <=? 0xF0 + cp / 262144) && (0xF0 + cp / 262144 <? 0x80)
               = false) by settle.
  assert (T2 : (0xC2 <=? 0xF0 + cp / 262144) && (0xF0 + cp / 262144 <? 0xE0)
               = false) by settle.
  assert (T3 : (0xE0 <=? 0xF0 + cp / 262144) && (0xF0 + cp / 262144 <? 0xF0)
               = false) by settle.
  assert (T4 : (0xF0 <=? 0xF0 + cp / 262144) && (0xF0 + cp / 262144 <? 0xF8)
               = true) by settle.
  assert (T5 : is_continuation (0x80 + (cp / 4096) mod 64) = true) by settle.
  assert (T6 : is_continuation (0x80 + (cp / 64) mod 64) = true) by settle.
  assert (T7 : is_continuation (0x80 + cp mod 64) = true) by settle.
  assert (T8 : (0x10000 <=? cp) = true) by settle.
  assert (T9 : (cp <? 0x110000) = true) by settle.
  rewrite T1, T2, T3, T4. cbv zeta. rewrite Hcp', T5, T6, T7, T8, T9.
  reflexivity.
Qed.

Lemma Buffer_from_cons (u : Z) (rest : list Z) :
  Buffer_from (u :: rest)
  = if is_high_surrogate u then
      match rest with
      | lo :: rest' =>
          if is_low_surrogate lo then
            utf8_code_point
              (0x10000 + Z.shiftl (u - 0xD800) 10 + (lo - 0xDC00))
              ++ Buffer_from rest'
          else utf8_code_point 0xFFFD ++ Buffer_from rest
      | [] => utf8_code_point 0xFFFD
      end
    else if is_low_surrogate u then utf8_code_point 0xFFFD ++ Buffer_from rest
    else utf8_code_point u ++ Buffer_from rest.
Proof. reflexivity. Qed.

(** [Buffer.from] on the code units of a scalar value gives its bytes. *)
Lemma Buffer_from_units (cp : Z) (rest : JSString) :
  is_scalar cp = true ->
  Buffer_from (utf16_units cp ++ rest) = utf8_code_point cp ++ Buffer_from rest.
Proof.
  intros Hcp. unfold utf16_units.
  destruct (cp <? 0x10000) eqn:E1.
  - cbn [app]. rewrite Buffer_from_cons.
    assert (T1 : is_high_surrogate cp = false) by settle.
    assert (T2 : is_low_surrogate cp = false) by settle.
    rewrite T1, T2. reflexivity.
  - cbn [app]. rewrite Buffer_from_cons.
    assert (Hc : 0 <= cp - 0x10000 < 0x100000)
      by (unfold is_scalar in Hcp; bools; lia).
    assert (Hq : 0 <= (cp - 0x10000) / 0x400 < 0x400).
    { split; [apply Z.div_pos; lia|apply Z.div_lt_upper_bound; lia]. }
    assert (Hr : 0 <= (cp - 0x10000) mod 0x400 < 0x400)
      by (apply Z.mod_pos_bound; lia).
    assert (T1 : is_high_surrogate (0xD800 + (cp - 0x10000) / 0x400) = true)
      by settle.
    assert (T2 : is_low_surrogate (0xDC00 + (cp - 0x10000) mod 0x400) = true)
      by settle.
    rewrite T1, T2. do 2 f_equal.
    rewrite Z.shiftl_mul_pow2 by lia. change (2 ^ 10) with 0x400.
    pose proof (Z.div_mod (cp - 0x10000) 0x400). lia.
Qed.

(** The bytes [Buffer.from] gives for the string of a text are the UTF-8
    encoding of that text. *)
Lemma Buffer_from_is_utf8 (text : list Z) :
  is_text text -> is_utf8_of text (Buffer_from (utf16_encode text)).
Proof.
  unfold is_utf8_of. induction 1 as [|cp text Hcp Htext IH]; [reflexivity|].
  change (utf16_encode (cp :: text)) with (utf16_units cp ++ utf16_encode text).
  rewrite (Buffer_from_units cp _ Hcp).
  rewrite (utf8_decode_code_point cp _ Hcp). rewrite IH. reflexivity.
Qed.

Lemma option_map_cons_inv (x cp : Z) (o : option (list Z)) (t : list Z) :
  option_map (cons x) o = Some (cp :: t) -> x = cp /\ o = Some t.
Proof.
  destruct o as [l|]; simpl; intros E; [|discriminate E].
  injection E as -> ->. split; reflexivity.
Qed.

(** A byte sequence that reads as a text starts with the bytes of the first
    scalar value of the text. *)
Lemma utf8_decode_inv (bs : list Z) (cp : Z) (t : list Z) :
  utf8_decode bs = Some (cp :: t) ->
  is_scalar cp = true
  /\ exists rest, bs = utf8_code_point cp ++ rest /\ utf8_decode rest = Some t.
Proof.
  destruct bs as [|b0 r0]; [discriminate|].
  rewrite utf8_decode_cons.
  destruct ((0 <=? b0) && (b0 <? 0x80)) eqn:C1.
  { intros E. apply option_map_cons_inv in E. destruct E as [-> E]. bools.
    split; [settle|]. exists r0. split; [|exact E].
    rewrite utf8_code_point_arith by lia.
    assert (T : (cp <? 0x80) = true) by settle. rewrite T. reflexivity. }
  destruct ((0xC2 <=? b0) && (b0 <? 0xE0)) eqn:C2.
  { destruct r0 as [|b1 r1]; [discriminate|].
    destruct (is_continuation b1) eqn:K1; [|discriminate].
    intros E. apply option_map_cons_inv in E. destruct E as [Hcp E].
    unfold is_continuation in K1. clear C1. bools.
    assert (Hrange : 0x80 <= cp < 0x800) by lia.
    split; [settle|]. exists r1. split; [|exact E].
    rewrite utf8_code_point_arith by lia.
    assert (T1 : (cp <? 0x80) = false) by settle.
    assert (T2 : (cp <? 0x800) = true) by settle.
    rewrite T1, T2. cbn [app].
    pose proof (Z.div_mod cp 64). pose proof (Z.mod_pos_bound cp 64).
    assert (cp / 64 = b0 - 0xC0) by lia.
    assert (cp mod 64 = b1 - 0x80) by lia.
    f_equal; [lia|]. f_equal. lia. }
  destruct ((0xE0 <=? b0) && (b0 <? 0xF0)) eqn:C3.
  { destruct r0 as [|b1 [|b2 r2]]; try discriminate. cbv zeta.
    destruct (is_continuation b1 && is_continuation b2
              && (0x800 <=? (b0 - 0xE0) * 4096 + (b1 - 0x80) * 64 + (b2 - 0x80))
              && is_scalar ((b0 - 0xE0) * 4096 + (b1 - 0x80) * 64 + (b2 - 0x80)))
      eqn:K; [|discriminate].
    intros E. apply option_map_cons_inv in E. destruct E as [Hcp E].
    rewrite Hcp in K.
    apply andb_true_iff in K. destruct K as [K Hscalar].
    unfold is_continuation in K. clear C1 C2. bools.
    assert (Hrange : 0x800 <= cp < 0x10000) by lia.
    split; [exact Hscalar|]. exists r2. split; [|exact E].
    rewrite utf8_code_point_arith by lia.
    assert (T1 : (cp <? 0x80) = false) by settle.
    assert (T2 : (cp <? 0x800) = false) by settle.
    assert (T3 : (cp <? 0x10000) = true) by settle.
    rewrite T1, T2, T3. cbn [app].
    pose proof (Z.div_mod cp 64). pose proof (Z.mod_pos_bound cp 64).
    pose proof (Z.div_mod (cp / 64) 64).
    pose proof (Z.mod_pos_bound (cp / 64) 64).
    assert (Hdd : cp / 64 / 64 = cp / 4096)
      by (rewrite Z.div_div by lia; reflexivity).
    assert (cp mod 64 = b2 - 0x80) by lia.
    assert ((cp / 64) mod 64 = b1 - 0x80) by lia.
    assert (cp / 4096 = b0 - 0xE0) by lia.
    f_equal; [lia|]. f_equal; [lia|]. f_equal. lia. }
  destruct ((0xF0 <=? b0) && (b0 <? 0xF8)) eqn:C4; [|discriminate].
  destruct r0 as [|b1 [|b2 [|b3 r3]]]; try discriminate. cbv zeta.
  destruct (is_continuation b1 && is_continuation b2 && is_continuation b3
            && (0x10000 <=? (b0 - 0xF0) * 262144 + (b1 - 0x80) * 4096
                             + (b2 - 0x80) * 64 + (b3 - 0x80))
            && ((b0 - 0xF0) * 262144 + (b1 - 0x80) * 4096
                + (b2 - 0x80) * 64 + (b3 - 0x80) <? 0x110000))
    eqn:K; [|discriminate].
  intros E. apply option_map_cons_inv in E. destruct E as [Hcp E].
  rewrite Hcp in K. unfold is_continuation in K. clear C1 C2 C3. bools.
  split; [settle|]. exists r3. split; [|exact E].
  rewrite utf8_code_point_arith by lia.
  assert (T1 : (cp <? 0x80) = false) by settle.
  assert (T2 : (cp <? 0x800) = false) by settle.
  assert (T3 : (cp <? 0x10000) = false) by settle.
  rewrite T1, T2, T3. cbn [app].
  pose proof (Z.div_mod cp 64). pose proof (Z.mod_pos_bound cp 64).
  pose proof (Z.div_mod (cp / 64) 64).
  pose proof (Z.mod_pos_bound (cp / 64) 64).
  pose proof (Z.div_mod (cp / 4096) 64).
  pose proof (Z.mod_pos_bound (cp / 4096) 64).
  assert (Hdd : cp / 64 / 64 = cp / 4096)
    by (rewrite Z.div_div by lia; reflexivity).
  assert (Hddd : cp / 4096 / 64 = cp / 262144)
    by (rewrite Z.div_div by lia; reflexivity).
  assert (cp mod 64 = b3 - 0x80) by lia.
  assert ((cp / 64) mod 64 = b2 - 0x80) by lia.
  assert ((cp / 4096) mod 64 = b1 - 0x80) by lia.
  assert (cp / 262144 = b0 - 0xF0) by lia.
  f_equal; [lia|]. f_equal; [lia|]. f_equal; [lia|]. f_equal. lia.
Qed.

Lemma utf8_decode_nil_inv (bs : list Z) : utf8_decode bs = Some [] -> bs = [].
Proof.
  destruct bs as [|b0 r0]; [reflexivity|].
  rewrite utf8_decode_cons. intros E. exfalso.
  assert (Hno : forall x o, option_map (cons x) o <> Some (@nil Z)).
  { intros x [l|]; simpl; discriminate. }
  destruct ((0 <=? b0) && (b0 <? 0x80)); [exact (Hno _ _ E)|].
  destruct ((0xC2 <=? b0) && (b0 <? 0xE0)).
  { destruct r0 as [|b1 r1]; [discriminate|].
    destruct (is_continuation b1); [exact (Hno _ _ E)|discriminate]. }
  destruct ((0xE0 <=? b0) && (b0 <? 0xF0)).
  { destruct r0 as [|b1 [|b2 r2]]; try discriminate. cbv zeta in E.
    match type of E with
    | (if ?c then _ else _) = _ => destruct c
    end; [exact (Hno _ _ E)|discriminate]. }
  destruct ((0xF0 <=? b0) && (b0 <? 0xF8)); [|discriminate].
  destruct r0 as [|b1 [|b2 [|b3 r3]]]; try discriminate. cbv zeta in E.
  match type of E with
  | (if ?c then _ else _) = _ => destruct c
  end; [exact (Hno _ _ E)|discriminate].
Qed.

(** A text has one UTF-8 encoding. *)
Lemma utf8_unique (text : list Z) :
  forall a b : list Z, is_utf8_of text a -> is_utf8_of text b -> a = b.
Proof.
  unfold is_utf8_of. induction text as [|cp text IH]; intros a b Ha Hb.
  - apply utf8_decode_nil_inv in Ha, Hb. subst. reflexivity.
  - apply utf8_decode_inv in Ha, Hb.
    destruct Ha as [_ (ra & -> & Ha)]. destruct Hb as [_ (rb & -> & Hb)].
    f_equal. apply IH; assumption.
Qed.

End Encoding.

(** C1. For every path string, [getPortForDir] returns 8765 plus the 64-bit
    FNV-1a hash of the bytes of the path taken modulo 1000 (offset basis
    0xcbf29ce484222325, prime 0x100000001b3, xor then multiply, all modulo
    2^64); the result lies in [8765, 9764], and equal paths give equal
    ports. The bytes are the UTF-8 encoding of the path: where the path is
    the string of a text, whatever byte sequence is the UTF-8 encoding of
    that text is the sequence that [Buffer.from] gives and that is hashed. *)
Theorem getPortForDir_fnv1a64 (cwd : JSString) :
  getPortForDir cwd = 8765 + fnv1a64 (Buffer_from cwd) mod 1000
  /\ 0 <= fnv1a64 (Buffer_from cwd) < 2 ^ 64
  /\ 8765 <= getPortForDir cwd <= 9764
  /\ (forall cwd', cwd' = cwd -> getPortForDir cwd' = getPortForDir cwd)
  /\ (forall text bytes : list Z,
         is_text text -> cwd = utf16_encode text -> is_utf8_of text bytes ->
         Buffer_from cwd = bytes
         /\ getPortForDir cwd = 8765 + fnv1a64 bytes mod 1000).
Proof.
  assert (E : hash_loop FNV_OFFSET (Buffer_from cwd) = fnv1a64 (Buffer_from cwd)).
  { apply hash_loop_fnv1a64_from. }
  assert (Hport : getPortForDir cwd = 8765 + fnv1a64 (Buffer_from cwd) mod 1000).
  { unfold getPortForDir. cbv zeta. rewrite E. reflexivity. }
  assert (Hhash : 0 <= fnv1a64 (Buffer_from cwd) < 2 ^ 64).
  { rewrite <- E. apply hash_loop_range. unfold FNV_OFFSET. lia. }
  split; [exact Hport|]. split; [exact Hhash|]. split; [|split].
  - rewrite Hport.
    pose proof (Z.mod_pos_bound (fnv1a64 (Buffer_from cwd)) 1000). lia.
  - intros cwd' ->. reflexivity.
  - intros text bytes Htext Hcwd Hbytes.
    assert (Hsame : Buffer_from cwd = bytes).
    { apply (utf8_unique text); [|exact Hbytes].
      rewrite Hcwd. apply Buffer_from_is_utf8. exact Htext. }
    split; [exact Hsame|]. rewrite Hport, Hsame. reflexivity.
Qed.

Lemma getPortForDir_fnv1a64_witness :
  Buffer_from (utf16_encode sample_text) = sample_bytes
  /\ getPortForDir (utf16_encode sample_text)
     = 8765 + fnv1a64 sample_bytes mod 1000.
Proof.
  destruct (getPortForDir_fnv1a64 (utf16_encode sample_text))
    as (_ & _ & _ & _ & Hutf8).
  apply (Hutf8 sample_text sample_bytes).
  - repeat constructor.
  - reflexivity.
  - reflexivity.
Defined.

(** ** Shaping of the command lines *)

Section Shaping.
Context {num : Type} `{Number num}.

Lemma push_when_is_truthy (o : option JSString) (cmd : list JSString)
    (items : JSString -> list JSString) :
  push_when is_truthy o cmd items
  = cmd ++ Spec.if_supplied (Spec.non_empty o) items.
Proof.
  destruct o as [[|c s]|]; simpl; unfold push;
    rewrite ?app_nil_r; reflexivity.
Qed.

Lemma push_when_is_true (o : option bool) (cmd : list JSString)
    (flag : JSString) :
  push_when is_true o cmd (fun _ => [flag]) = cmd ++ Spec.if_requested o flag.
Proof.
  destruct o as [[|]|]; simpl; unfold push; rewrite ?app_nil_r; reflexivity.
Qed.

Lemma push_when_to_boolean (o : option num) (cmd : list JSString)
    (items : num -> list JSString) :
  push_when to_boolean o cmd items
  = cmd ++ Spec.if_supplied (Spec.non_falsy o) items.
Proof.
  destruct o as [v|]; simpl; [destruct (to_boolean v); simpl|];
    unfold push; rewrite ?app_nil_r; reflexivity.
Qed.

Lemma push_when_is_defined (o : option num) (cmd : list JSString)
    (items : num -> list JSString) :
  push_when is_defined o cmd items = cmd ++ Spec.if_supplied o items.
Proof.
  destruct o; simpl; unfold push; rewrite ?app_nil_r; reflexivity.
Qed.

Lemma sema_cmd_effective (args : SemaArgs num) :
  sema_cmd args = Spec.search_tokens (Spec.effective_sema args).
Proof.
  unfold sema_cmd, Spec.search_tokens, Spec.effective_sema, Spec.binary.
  cbv zeta. cbn [query path n lang glob exclude keyword].
  rewrite !push_when_is_truthy, push_when_to_boolean, push_when_is_true.
  unfold push. rewrite <- !app_assoc. reflexivity.
Qed.

Lemma find_cmd_effective (args : FindArgs) :
  find_cmd args = Spec.find_tokens (Spec.effective_find args).
Proof.
  unfold find_cmd, Spec.find_tokens, Spec.effective_find, Spec.binary.
  cbv zeta. cbn [find_symbol find_kind find_exported find_prefix].
  rewrite push_when_is_truthy, !push_when_is_true.
  rewrite <- !app_assoc. reflexivity.
Qed.

Lemma query_cmd_effective (args : QueryArgs num) :
  query_cmd args = Spec.query_tokens (Spec.effective_query args).
Proof.
  unfold query_cmd, Spec.query_tokens, Spec.effective_query, Spec.binary.
  cbv zeta.
  cbn [kind exported min_complexity max_complexity role parent language].
  rewrite !push_when_is_truthy, !push_when_is_defined, push_when_is_true.
  rewrite <- !app_assoc. reflexivity.
Qed.

End Shaping.

Section Numerals.

Lemma unjs_js (s : string) : unjs (js s) = s.
Proof.
  unfold unjs, js. rewrite map_map.
  rewrite (map_ext _ (fun c => c)).
  - rewrite map_id. apply string_of_list_ascii_of_string.
  - intros c. rewrite N2Z.id. apply ascii_N_embedding.
Qed.

Lemma to_int_proper (z : Z) :
  Z.to_int z <> Decimal.Pos Decimal.Nil /\ Z.to_int z <> Decimal.Neg Decimal.Nil.
Proof.
  destruct z as [|p|p]; simpl; split; try discriminate;
    intros E; injection E as E;
    exact (DecimalPos.Unsigned.to_uint_nonnil p E).
Qed.

(** [String(v)] of an integer, read back in base 10, is that integer. *)
Lemma base10_value_decimal (z : Z) : base10_value (decimal z) = Some z.
Proof.
  unfold base10_value, decimal. rewrite unjs_js.
  destruct (to_int_proper z) as [Hp Hn].
  rewrite (NilZero.isi _ Hp Hn). simpl. f_equal. apply DecimalZ.of_to.
Qed.

End Numerals.

(** C3, as the code has it. For every argument set of the search tool the
    command is the documented sequence - binary, "-k" iff keyword mode was
    requested, the query, the path, then the "-n", "-l", "-g", "--exclude"
    pairs - taken over the arguments that were supplied with a truthy value:
    a path, language, glob or exclusion that is the empty string, and a
    count that is falsy, count as not supplied. query = "foo" alone gives
    [sema, "foo"]; with keyword = true and n = 10 it gives
    [sema, "-k", "foo", "-n", "10"]. *)
Theorem sema_cmd_tokens :
  (forall (num : Type) (I : Number num) (args : SemaArgs num),
      sema_cmd args = Spec.search_tokens (Spec.effective_sema args))
  /\ sema_cmd Samples.search_foo = [Spec.binary; js "foo"]
  /\ sema_cmd Samples.search_foo_keyword_10
     = [Spec.binary; js "-k"; js "foo"; js "-n"; js "10"].
Proof.
  split; [|split].
  - intros num I args. apply sema_cmd_effective.
  - reflexivity.
  - reflexivity.
Qed.

(** C3 fails as worded: with query = "foo" and path = "" supplied, the
    documented sequence has the path token, and the command does not. *)
Lemma sema_cmd_drops_empty_path :
  sema_cmd Samples.search_foo_empty_path = [js "sema"; js "foo"]
  /\ Spec.search_tokens Samples.search_foo_empty_path
     = [js "sema"; js "foo"; js ""]
  /\ sema_cmd Samples.search_foo_empty_path
     <> Spec.search_tokens Samples.search_foo_empty_path.
Proof.
  split; [reflexivity|]. split; [reflexivity|]. discriminate.
Qed.

(** C7, as the code has it. The find-symbol command is
    [sema, "find", symbol], then "--kind <kind>" if a kind that is not the
    empty string was supplied, "--exported" if requested, "--prefix" if
    requested; the find-references command is [sema, "refs", symbol]. *)
Theorem find_refs_cmd_tokens :
  (forall args : FindArgs,
      find_cmd args = Spec.find_tokens (Spec.effective_find args))
  /\ (forall args : RefsArgs, refs_cmd args = Spec.refs_tokens args).
Proof.
  split.
  - intros args. apply find_cmd_effective.
  - intros args. reflexivity.
Qed.

(** C7 fails as worded: with kind = "" supplied, the documented sequence has
    the "--kind" pair, and the command does not. *)
Lemma find_cmd_drops_empty_kind :
  find_cmd Samples.find_parse_empty_kind = [js "sema"; js "find"; js "parse"]
  /\ Spec.find_tokens Samples.find_parse_empty_kind
     = [js "sema"; js "find"; js "parse"; js "--kind"; js ""]
  /\ find_cmd Samples.find_parse_empty_kind
     <> Spec.find_tokens Samples.find_parse_empty_kind.
Proof.
  split; [reflexivity|]. split; [reflexivity|]. discriminate.
Qed.

(** C6, as the code has it. The structural-query command is
    [sema, "query"] followed by the "--kind", "--exported",
    "--min-complexity", "--max-complexity", "--role", "--parent",
    "--language" groups in that order: the flag iff requested, the two
    numeric pairs iff the number was supplied, the four string pairs iff
    the string was supplied and is not empty. A numeric value is written
    by [String]; for an integer of magnitude up to 2^53 that is its base-10
    numeral. *)
Theorem query_cmd_tokens :
  (forall (num : Type) (I : Number num) (args : QueryArgs num),
      query_cmd args = Spec.query_tokens (Spec.effective_query args))
  /\ (forall z : Z,
         Z.abs z <= 2 ^ 53 ->
         to_string z = decimal z /\ base10_value (to_string z) = Some z)
  /\ query_cmd Samples.query_full
     = [Spec.binary; js "query"; js "--kind"; js "function"; js "--exported";
        js "--min-complexity"; js "0"; js "--max-complexity"; js "25";
        js "--role"; js "definition"; js "--parent"; js "HttpClient";
        js "--language"; js "zig"].
Proof.
  split; [|split].
  - intros num I args. apply query_cmd_effective.
  - intros z _. split; [reflexivity|]. apply base10_value_decimal.
  - reflexivity.
Qed.

Lemma query_cmd_tokens_witness :
  to_string 25 = js "25" /\ base10_value (to_string 25) = Some 25.
Proof.
  destruct query_cmd_tokens as (_ & Hnumeral & _).
  destruct (Hnumeral 25) as [Hdec Hback]; [vm_compute; discriminate|].
  split; [rewrite Hdec; reflexivity|exact Hback].
Defined.

(** C6 fails as worded: with kind = "" supplied, the documented sequence has
    the "--kind" pair, and the command does not. *)
Lemma query_cmd_drops_empty_kind :
  query_cmd Samples.query_empty_kind = [js "sema"; js "query"]
  /\ Spec.query_tokens Samples.query_empty_kind
     = [js "sema"; js "query"; js "--kind"; js ""]
  /\ query_cmd Samples.query_empty_kind
     <> Spec.query_tokens Samples.query_empty_kind.
Proof.
  split; [reflexivity|]. split; [reflexivity|]. discriminate.
Qed.

(** C10. Presence of an optional argument is decided differently in the two
    tools. In the search tool an empty string for path, lang, glob or
    exclude, and n = 0, leave the command as if the argument were absent.
    In the structural-query tool min_complexity = 0 and max_complexity = 0
    do put "--min-complexity 0" and "--max-complexity 0" in the command,
    while an empty string for kind, role, parent or language leaves the
    command as if the argument were absent. *)
Theorem optional_presence_differs :
  (forall q p c l g e k,
      sema_cmd {| query := q; path := Some (js ""); n := c; lang := l;
                  glob := g; exclude := e; keyword := k |}
      = sema_cmd {| query := q; path := None; n := c; lang := l;
                    glob := g; exclude := e; keyword := k |}
      /\ sema_cmd {| query := q; path := p; n := Some 0; lang := l;
                     glob := g; exclude := e; keyword := k |}
         = sema_cmd {| query := q; path := p; n := None; lang := l;
                       glob := g; exclude := e; keyword := k |}
      /\ sema_cmd {| query := q; path := p; n := c; lang := Some (js "");
                     glob := g; exclude := e; keyword := k |}
         = sema_cmd {| query := q; path := p; n := c; lang := None;
                       glob := g; exclude := e; keyword := k |}
      /\ sema_cmd {| query := q; path := p; n := c; lang := l;
                     glob := Some (js ""); exclude := e; keyword := k |}
         = sema_cmd {| query := q; path := p; n := c; lang := l;
                       glob := None; exclude := e; keyword := k |}
      /\ sema_cmd {| query := q; path := p; n := c; lang := l;
                     glob := g; exclude := Some (js ""); keyword := k |}
         = sema_cmd {| query := q; path := p; n := c; lang := l;
                       glob := g; exclude := None; keyword := k |})
  /\ (forall k x lo hi r p l,
         (exists before after,
             query_cmd {| kind := k; exported := x; min_complexity := Some 0;
                          max_complexity := hi; role := r; parent := p;
                          language := l |}
             = before ++ [js "--min-complexity"; js "0"] ++ after
             /\ query_cmd {| kind := k; exported := x; min_complexity := None;
                             max_complexity := hi; role := r; parent := p;
                             language := l |}
                = before ++ after)
         /\ (exists before after,
                query_cmd {| kind := k; exported := x; min_complexity := lo;
                             max_complexity := Some 0; role := r; parent := p;
                             language := l |}
                = before ++ [js "--max-complexity"; js "0"] ++ after
                /\ query_cmd {| kind := k; exported := x; min_complexity := lo;
                                max_complexity := None; role := r; parent := p;
                                language := l |}
                   = before ++ after)
         /\ query_cmd {| kind := Some (js ""); exported := x; min_complexity := lo;
                         max_complexity := hi; role := r; parent := p;
                         language := l |}
            = query_cmd {| kind := None; exported := x; min_complexity := lo;
                           max_complexity := hi; role := r; parent := p;
                           language := l |}
         /\ query_cmd {| kind := k; exported := x; min_complexity := lo;
                         max_complexity := hi; role := Some (js ""); parent := p;
                         language := l |}
            = query_cmd {| kind := k; exported := x; min_complexity := lo;
                           max_complexity := hi; role := None; parent := p;
                           language := l |}
         /\ query_cmd {| kind := k; exported := x; min_complexity := lo;
                         max_complexity := hi; role := r; parent := Some (js "");
                         language := l |}
            = query_cmd {| kind := k; exported := x; min_complexity := lo;
                           max_complexity := hi; role := r; parent := None;
                           language := l |}
         /\ query_cmd {| kind := k; exported := x; min_complexity := lo;
                         max_complexity := hi; role := r; parent := p;
                         language := Some (js "") |}
            = query_cmd {| kind := k; exported := x; min_complexity := lo;
                           max_complexity := hi; role := r; parent := p;
                           language := None |}).
Proof.
  split.
  - intros q p c l g e k.
    repeat split; rewrite !(sema_cmd_effective (num := Z)); reflexivity.
  - intros k x lo hi r p l. split; [|split].
    + exists ([Spec.binary; js "query"]
                ++ Spec.if_supplied (Spec.non_empty k) (fun v => [js "--kind"; v])
                ++ Spec.if_requested x (js "--exported")).
      exists (Spec.if_supplied hi (fun v => [js "--max-complexity"; to_string v])
                ++ Spec.if_supplied (Spec.non_empty r) (fun v => [js "--role"; v])
                ++ Spec.if_supplied (Spec.non_empty p) (fun v => [js "--parent"; v])
                ++ Spec.if_supplied (Spec.non_empty l)
                     (fun v => [js "--language"; v])).
      rewrite !(query_cmd_effective (num := Z)).
      unfold Spec.query_tokens, Spec.effective_query.
      cbn [kind exported min_complexity max_complexity role parent language].
      rewrite <- !app_assoc. split; reflexivity.
    + exists ([Spec.binary; js "query"]
                ++ Spec.if_supplied (Spec.non_empty k) (fun v => [js "--kind"; v])
                ++ Spec.if_requested x (js "--exported")
                ++ Spec.if_supplied lo
                     (fun v => [js "--min-complexity"; to_string v])).
      exists (Spec.if_supplied (Spec.non_empty r) (fun v => [js "--role"; v])
                ++ Spec.if_supplied (Spec.non_empty p) (fun v => [js "--parent"; v])
                ++ Spec.if_supplied (Spec.non_empty l)
                     (fun v => [js "--language"; v])).
      rewrite !(query_cmd_effective (num := Z)).
      unfold Spec.query_tokens, Spec.effective_query.
      cbn [kind exported min_complexity max_complexity role parent language].
      rewrite <- !app_assoc. split; reflexivity.
    + repeat split; rewrite !(query_cmd_effective (num := Z)); reflexivity.
Qed.

(** ** The health probe and the supervision of the server *)

Section Supervision.
Variable w : World.
Context {num : Type} `{Number num}.

Lemma checkServerHealth_run (port timeout : Z) (s : State) :
  checkServerHealth w port timeout s
  = (Normal (answers_2xx w (fetches s) (health_url port)),
     {| trace := trace s ++ [Fetch (health_url port) timeout];
        fetches := S (fetches s) |}).
Proof.
  unfold checkServerHealth, try_catch, bind, fetch, ret, answers_2xx, ok.
  destruct (fetch_of w (fetches s) (health_url port)); reflexivity.
Qed.

Lemma poll_step (port : Z) (turns : nat) (s : State) :
  poll w port (S turns) s
  = if answers_2xx w (fetches s) (health_url port)
    then (Normal tt,
          {| trace := trace s ++ polls (health_url port) 1;
             fetches := S (fetches s) |})
    else poll w port turns
           {| trace := trace s ++ polls (health_url port) 1;
              fetches := S (fetches s) |}.
Proof.
  change (poll w port (S turns)) with
    (sleep 100 ;;
     healthy <- checkServerHealth w port 500 ;;
     if healthy then ret tt else poll w port turns).
  unfold bind at 1. unfold sleep at 1. unfold bind at 1.
  rewrite checkServerHealth_run. unfold log. cbn [trace fetches].
  rewrite <- app_assoc. cbn [app polls].
  destruct (answers_2xx w (fetches s) (health_url port)); reflexivity.
Qed.

(** The loop when no probe is answered: every turn is taken. *)
Lemma poll_all_down (port : Z) (turns : nat) :
  forall s : State,
    (forall j, (j < turns)%nat ->
               answers_2xx w (fetches s + j) (health_url port) = false) ->
    poll w port turns s
    = (Normal tt,
       {| trace := trace s ++ polls (health_url port) turns;
          fetches := fetches s + turns |}).
Proof.
  induction turns as [|turns IH]; intros s Hdown.
  - simpl. unfold ret. rewrite app_nil_r, Nat.add_0_r. destruct s; reflexivity.
  - rewrite poll_step.
    rewrite <- (Nat.add_0_r (fetches s)) at 1.
    rewrite (Hdown 0%nat) by lia.
    rewrite IH.
    + cbn [trace fetches]. rewrite <- app_assoc. cbn [app polls].
      rewrite Nat.add_succ_r. reflexivity.
    + intros j Hj. cbn [fetches].
      replace (S (fetches s) + j)%nat with (fetches s + S j)%nat by lia.
      apply Hdown. lia.
Qed.

(** The loop when the probe of turn [k] (counted from 0) is the first one
    answered: it stops right after it. *)
Lemma poll_first_up (port : Z) (turns : nat) :
  forall (k : nat) (s : State),
    (k < turns)%nat ->
    (forall j, (j < k)%nat ->
               answers_2xx w (fetches s + j) (health_url port) = false) ->
    answers_2xx w (fetches s + k) (health_url port) = true ->
    poll w port turns s
    = (Normal tt,
       {| trace := trace s ++ polls (health_url port) (S k);
          fetches := fetches s + S k |}).
Proof.
  induction turns as [|turns IH]; intros k s Hk Hdown Hup; [lia|].
  rewrite poll_step. destruct k as [|k].
  - rewrite Nat.add_0_r in Hup. rewrite Hup.
    rewrite Nat.add_1_r. reflexivity.
  - rewrite <- (Nat.add_0_r (fetches s)) at 1.
    rewrite (Hdown 0%nat) by lia.
    rewrite (IH k).
    + cbn [trace fetches]. rewrite <- app_assoc. cbn [app polls].
      rewrite (Nat.add_succ_r (fetches s) (S k)). reflexivity.
    + lia.
    + intros j Hj. cbn [fetches].
      replace (S (fetches s) + j)%nat with (fetches s + S j)%nat by lia.
      apply Hdown. lia.
    + cbn [fetches].
      replace (S (fetches s) + k)%nat with (fetches s + S k)%nat by lia.
      exact Hup.
Qed.

(** The loop never throws, whatever the probes answer, and logs nothing
    but poll attempts, at most as many as it has turns. *)
Lemma poll_normal (port : Z) (turns : nat) :
  forall s : State,
  exists k, (k <= turns)%nat
    /\ poll w port turns s
       = (Normal tt,
          {| trace := trace s ++ polls (health_url port) k;
             fetches := fetches s + k |}).
Proof.
  induction turns as [|turns IH]; intros s.
  - exists 0%nat. split; [lia|]. simpl. unfold ret.
    rewrite app_nil_r, Nat.add_0_r. destruct s; reflexivity.
  - rewrite poll_step.
    destruct (answers_2xx w (fetches s) (health_url port)).
    + exists 1%nat. split; [lia|]. rewrite Nat.add_1_r. reflexivity.
    + destruct (IH {| trace := trace s ++ polls (health_url port) 1;
                      fetches := S (fetches s) |}) as [k [Hk E]].
      exists (S k). split; [lia|]. rewrite E. cbn [trace fetches].
      rewrite <- app_assoc. cbn [app polls].
      rewrite (Nat.add_succ_r (fetches s) k). reflexivity.
Qed.

Lemma poll_attempts_polls (url : JSString) (k : nat) :
  poll_attempts (polls url k) = k.
Proof.
  induction k as [|k IH]; [reflexivity|]. simpl. rewrite IH. reflexivity.
Qed.

Lemma spawns_polls (url : JSString) (k : nat) : spawns (polls url k) = [].
Proof.
  induction k as [|k IH]; [reflexivity|]. simpl. exact IH.
Qed.

(** The supervision, case by case. *)
Lemma supervise_run (realDir : JSString) (port : Z) (s : State) :
  supervise w realDir port s
  = if answers_2xx w (fetches s) (health_url port) then
      (Normal tt,
       {| trace := trace s ++ [Fetch (health_url port) 500];
          fetches := S (fetches s) |})
    else if truthy_opt (which_of w (js "sema")) then
      match spawn_of w [js "sema"; js "serve"] (detached_in realDir) with
      | Some _ =>
          poll w port 30
            {| trace := trace s ++ [Fetch (health_url port) 500;
                                    Which (js "sema");
                                    Spawn [js "sema"; js "serve"]
                                          (detached_in realDir);
                                    Unref];
               fetches := S (fetches s) |}
      | None =>
          (Throw SpawnError,
           {| trace := trace s ++ [Fetch (health_url port) 500;
                                   Which (js "sema");
                                   Spawn [js "sema"; js "serve"]
                                         (detached_in realDir)];
              fetches := S (fetches s) |})
      end
    else
      (Normal tt,
       {| trace := trace s ++ [Fetch (health_url port) 500; Which (js "sema")];
          fetches := S (fetches s) |}).
Proof.
  unfold supervise. unfold bind at 1. rewrite checkServerHealth_run.
  destruct (answers_2xx w (fetches s) (health_url port)); [reflexivity|].
  cbn [negb]. unfold bind at 1. unfold which at 1.
  destruct (truthy_opt (which_of w (js "sema"))).
  - unfold bind at 1. unfold spawn at 1.
    destruct (spawn_of w [js "sema"; js "serve"] (detached_in realDir)).
    + unfold bind at 1. unfold unref at 1.
      unfold log. cbn [trace fetches]. rewrite <- !app_assoc. reflexivity.
    + unfold log. cbn [trace fetches]. rewrite <- !app_assoc. reflexivity.
  - unfold ret, log. cbn [trace fetches]. rewrite <- !app_assoc. reflexivity.
Qed.

(** Activation: the directory is resolved, the server supervised from the
    port of the resolved directory, and the callbacks returned, unless the
    supervision throws. *)
Lemma SemaPlugin_supervise (directory : JSString) (s : State) :
  SemaPlugin w directory s
  = match supervise w (resolved w directory)
            (getPortForDir (resolved w directory)) s with
    | (Normal _, s') => (Normal (tools w (resolved w directory)), s')
    | (Throw e, s') => (Throw e, s')
    end.
Proof.
  unfold SemaPlugin, resolved.
  unfold bind at 1. unfold try_catch, realpathSync.
  destruct (realpath_of w directory) as [r|]; cbv zeta;
    unfold bind at 1; unfold ret at 1;
    match goal with
    | |- context [supervise w ?d ?p s] =>
        destruct (supervise w d p s) as [[[]|e] s']; reflexivity
    end.
Qed.

Lemma SemaPlugin_run (directory : JSString) (s s' : State) :
  supervise w (resolved w directory)
    (getPortForDir (resolved w directory)) s = (Normal tt, s') ->
  SemaPlugin w directory s = (Normal (tools w (resolved w directory)), s').
Proof.
  intros Hsup. rewrite SemaPlugin_supervise, Hsup. reflexivity.
Qed.

Lemma SemaPlugin_throws (directory : JSString) (s s' : State) (e : Error) :
  supervise w (resolved w directory)
    (getPortForDir (resolved w directory)) s = (Throw e, s') ->
  SemaPlugin w directory s = (Throw e, s').
Proof.
  intros Hsup. rewrite SemaPlugin_supervise, Hsup. reflexivity.
Qed.

End Supervision.

(** C8. [checkServerHealth] issues one GET of
    http://127.0.0.1:<port>/health and returns true iff the fetch settles
    with a response whose status is 2xx; a response with another status, a
    network error and an abort by the timer give false; it completes
    normally in every case. *)
Theorem checkServerHealth_contract (w : World) (port timeout : Z) (s : State) :
  exists (b : bool) (s' : State),
    checkServerHealth w port timeout s = (Normal b, s')
    /\ trace s' = trace s ++ [Fetch (health_url port) timeout]
    /\ health_url port = js "http://127.0.0.1:" ++ decimal port ++ js "/health"
    /\ (b = true <->
        exists st, fetch_of w (fetches s) (health_url port) = Responds st
                   /\ 200 <= st <= 299)
    /\ ((forall st, fetch_of w (fetches s) (health_url port) = Responds st ->
                    ~ 200 <= st <= 299) ->
        b = false).
Proof.
  rewrite checkServerHealth_run. eexists. eexists.
  split; [reflexivity|]. split; [reflexivity|]. split; [reflexivity|].
  unfold answers_2xx.
  destruct (fetch_of w (fetches s) (health_url port)) as [st| |].
  - split.
    + split.
      * intros Hb. apply andb_true_iff in Hb. destruct Hb as [H1 H2].
        apply Z.leb_le in H1, H2. exists st. split; [reflexivity|lia].
      * intros [st' [E Hst]]. injection E as ->.
        apply andb_true_iff. split; apply Z.leb_le; lia.
    + intros Hno. specialize (Hno st eq_refl).
      destruct ((200 <=? st) && (st <=? 299)) eqn:E; [|reflexivity].
      exfalso. apply Hno. apply andb_true_iff in E. destruct E as [H1 H2].
      apply Z.leb_le in H1, H2. lia.
  - split; [|reflexivity]. split; [discriminate|].
    intros [st [E _]]. discriminate.
  - split; [|reflexivity]. split; [discriminate|].
    intros [st [E _]]. discriminate.
Qed.

Lemma checkServerHealth_contract_witness :
  (exists b s',
      checkServerHealth Samples.world_up 8765 500 initial = (Normal b, s')
      /\ b = true)
  /\ (exists b s',
         checkServerHealth Samples.world_down 8765 500 initial = (Normal b, s')
         /\ b = false).
Proof.
  split.
  - destruct (checkServerHealth_contract Samples.world_up 8765 500 initial)
      as (b & s' & Hrun & _ & _ & Hiff & _).
    exists b, s'. split; [exact Hrun|].
    apply Hiff. exists 200. split; [reflexivity|lia].
  - destruct (checkServerHealth_contract Samples.world_down 8765 500 initial)
      as (b & s' & Hrun & _ & _ & _ & Hno).
    exists b, s'. split; [exact Hrun|].
    apply Hno. intros st E. discriminate E.
Defined.

Section Activation.
Variable w : World.
Context {num : Type} `{Number num}.
Variable directory : JSString.

Lemma spawns_app (a b : list Event) : spawns (a ++ b) = spawns a ++ spawns b.
Proof. apply filter_app. Qed.

(** Activation when the first probe is answered. *)
Lemma activation_reuses :
  answers_2xx w 0 (probe_url w directory) = true ->
  SemaPlugin w directory initial
  = (Normal (tools w (resolved w directory)),
     {| trace := [Fetch (probe_url w directory) 500]; fetches := 1 |}).
Proof.
  intros Hup. apply SemaPlugin_run. rewrite supervise_run.
  cbn [fetches initial]. fold (probe_url w directory).
  rewrite Hup. reflexivity.
Qed.

(** Activation when the first probe is not answered and the binary is not
    found. *)
Lemma activation_gives_up :
  answers_2xx w 0 (probe_url w directory) = false ->
  truthy_opt (which_of w (js "sema")) = false ->
  SemaPlugin w directory initial
  = (Normal (tools w (resolved w directory)),
     {| trace := [Fetch (probe_url w directory) 500; Which (js "sema")];
        fetches := 1 |}).
Proof.
  intros Hdown Hwhich. apply SemaPlugin_run. rewrite supervise_run.
  cbn [fetches initial]. fold (probe_url w directory).
  rewrite Hdown, Hwhich. reflexivity.
Qed.

(** The state in which the polling loop starts. *)
Lemma launched_state :
  {| trace := [] ++ [Fetch (probe_url w directory) 500; Which (js "sema");
                     Spawn [js "sema"; js "serve"]
                           (detached_in (resolved w directory));
                     Unref];
     fetches := 1 |}
  = {| trace := launch (resolved w directory) (probe_url w directory);
       fetches := 1 |}.
Proof. reflexivity. Qed.

(** Activation when the first probe is not answered, the binary is found
    and the spawn of the server throws. *)
Lemma activation_launch_throws :
  answers_2xx w 0 (probe_url w directory) = false ->
  truthy_opt (which_of w (js "sema")) = true ->
  spawn_of w [js "sema"; js "serve"] (detached_in (resolved w directory))
  = None ->
  SemaPlugin w directory initial
  = (Throw SpawnError,
     {| trace := [Fetch (probe_url w directory) 500; Which (js "sema");
                  Spawn [js "sema"; js "serve"]
                        (detached_in (resolved w directory))];
        fetches := 1 |}).
Proof.
  intros Hdown Hwhich Hspawn. apply SemaPlugin_throws. rewrite supervise_run.
  cbn [fetches initial trace]. fold (probe_url w directory).
  rewrite Hdown, Hwhich, Hspawn. reflexivity.
Qed.

(** Activation when the first probe is not answered, the binary is found
    and the server is spawned: the launch, then at most 30 poll attempts. *)
Lemma activation_launches (child : Child) :
  answers_2xx w 0 (probe_url w directory) = false ->
  truthy_opt (which_of w (js "sema")) = true ->
  spawn_of w [js "sema"; js "serve"] (detached_in (resolved w directory))
  = Some child ->
  exists k, (k <= 30)%nat
    /\ SemaPlugin w directory initial
       = (Normal (tools w (resolved w directory)),
          {| trace := launch (resolved w directory) (probe_url w directory)
                        ++ polls (probe_url w directory) k;
             fetches := S k |}).
Proof.
  intros Hdown Hwhich Hspawn.
  destruct (poll_normal w (getPortForDir (resolved w directory)) 30
              {| trace := launch (resolved w directory) (probe_url w directory);
                 fetches := 1 |})
    as [k [Hk E]].
  exists k. split; [exact Hk|].
  apply SemaPlugin_run. rewrite supervise_run.
  cbn [fetches initial trace]. fold (probe_url w directory).
  rewrite Hdown, Hwhich, Hspawn, launched_state. exact E.
Qed.

Lemma activation_polls_30 (child : Child) :
  answers_2xx w 0 (probe_url w directory) = false ->
  truthy_opt (which_of w (js "sema")) = true ->
  spawn_of w [js "sema"; js "serve"] (detached_in (resolved w directory))
  = Some child ->
  (forall k, (1 <= k <= 30)%nat ->
             answers_2xx w k (probe_url w directory) = false) ->
  SemaPlugin w directory initial
  = (Normal (tools w (resolved w directory)),
     {| trace := launch (resolved w directory) (probe_url w directory)
                   ++ polls (probe_url w directory) 30;
        fetches := 31 |}).
Proof.
  intros Hdown Hwhich Hspawn Hnever.
  apply SemaPlugin_run. rewrite supervise_run.
  cbn [fetches initial trace]. fold (probe_url w directory).
  rewrite Hdown, Hwhich, Hspawn, launched_state.
  apply (poll_all_down w (getPortForDir (resolved w directory)) 30).
  intros j Hj. cbn [fetches]. fold (probe_url w directory).
  apply Hnever. lia.
Qed.

Lemma activation_polls_until (child : Child) (k : nat) :
  answers_2xx w 0 (probe_url w directory) = false ->
  truthy_opt (which_of w (js "sema")) = true ->
  spawn_of w [js "sema"; js "serve"] (detached_in (resolved w directory))
  = Some child ->
  (1 <= k <= 30)%nat ->
  (forall j, (1 <= j < k)%nat ->
             answers_2xx w j (probe_url w directory) = false) ->
  answers_2xx w k (probe_url w directory) = true ->
  SemaPlugin w directory initial
  = (Normal (tools w (resolved w directory)),
     {| trace := launch (resolved w directory) (probe_url w directory)
                   ++ polls (probe_url w directory) k;
        fetches := S k |}).
Proof.
  intros Hdown Hwhich Hspawn Hk Hbefore Hup.
  apply SemaPlugin_run. rewrite supervise_run.
  cbn [fetches initial trace]. fold (probe_url w directory).
  rewrite Hdown, Hwhich, Hspawn, launched_state.
  destruct k as [|k]; [lia|].
  apply (poll_first_up w (getPortForDir (resolved w directory)) 30 k).
  - lia.
  - intros j Hj. cbn [fetches]. fold (probe_url w directory).
    apply Hbefore. lia.
  - cbn [fetches]. fold (probe_url w directory). exact Hup.
Qed.

Lemma poll_attempts_launch (k : nat) :
  poll_attempts (launch (resolved w directory) (probe_url w directory)
                   ++ polls (probe_url w directory) k) = k.
Proof. simpl. apply poll_attempts_polls. Qed.

Lemma spawns_launch (k : nat) :
  spawns (launch (resolved w directory) (probe_url w directory)
            ++ polls (probe_url w directory) k)
  = [Spawn [js "sema"; js "serve"] (detached_in (resolved w directory))].
Proof. rewrite spawns_app, spawns_polls. reflexivity. Qed.

End Activation.

(** C4, as the code has it. During activation, if the first health check
    fails, the binary is found and the spawn of the server returns a
    process, then: if no later check succeeds, exactly 30 poll attempts
    are made, each after a sleep of 100 ms, and activation returns the
    callbacks normally; if the check of poll attempt [k] is the first to
    succeed, exactly [k] attempts are made. *)
Theorem activation_polling_bounded
    (w : World) (num : Type) (I : Number num) (directory : JSString)
    (child : Child) :
  let realDir := resolved w directory in
  let url := health_url (getPortForDir realDir) in
  let out := SemaPlugin w directory initial in
  answers_2xx w 0 url = false ->
  truthy_opt (which_of w (js "sema")) = true ->
  spawn_of w [js "sema"; js "serve"] (detached_in realDir) = Some child ->
  ((forall k, (1 <= k <= 30)%nat -> answers_2xx w k url = false) ->
   fst out = Normal (tools w realDir)
   /\ trace (snd out) = launch realDir url ++ polls url 30
   /\ poll_attempts (trace (snd out)) = 30%nat)
  /\ (forall k, (1 <= k <= 30)%nat ->
        (forall j, (1 <= j < k)%nat -> answers_2xx w j url = false) ->
        answers_2xx w k url = true ->
        fst out = Normal (tools w realDir)
        /\ trace (snd out) = launch realDir url ++ polls url k
        /\ poll_attempts (trace (snd out)) = k).
Proof.
  intros realDir url out Hdown Hwhich Hspawn. split.
  - intros Hnever. unfold out.
    rewrite (activation_polls_30 w directory child Hdown Hwhich Hspawn Hnever).
    cbn [fst snd trace].
    split; [reflexivity|]. split; [reflexivity|]. apply poll_attempts_launch.
  - intros k Hk Hbefore Hup. unfold out.
    rewrite (activation_polls_until w directory child k Hdown Hwhich Hspawn
               Hk Hbefore Hup).
    cbn [fst snd trace].
    split; [reflexivity|]. split; [reflexivity|]. apply poll_attempts_launch.
Qed.

Lemma activation_polling_bounded_witness :
  (fst (SemaPlugin Scenarios.world_never_up (num := Z) Samples.project initial)
   = Normal (tools Scenarios.world_never_up Samples.project)
   /\ poll_attempts
        (trace (snd (SemaPlugin Scenarios.world_never_up (num := Z)
                       Samples.project initial))) = 30%nat)
  /\ poll_attempts
       (trace (snd (SemaPlugin Samples.world_late (num := Z)
                      Samples.project initial))) = 3%nat.
Proof.
  split.
  - destruct (activation_polling_bounded Scenarios.world_never_up Z
                IntegerNumber Samples.project Samples.no_output_exit_1
                eq_refl eq_refl eq_refl) as [Hall _].
    destruct (Hall (fun _ _ => eq_refl)) as (Hres & _ & Hcount).
    split; [exact Hres|exact Hcount].
  - destruct (activation_polling_bounded Samples.world_late Z IntegerNumber
                Samples.project Samples.boom_exit_1 eq_refl eq_refl eq_refl)
      as [_ Huntil].
    assert (Hk : (1 <= 3 <= 30)%nat) by lia.
    assert (Hbefore : forall j, (1 <= j < 3)%nat ->
              answers_2xx Samples.world_late j
                (health_url (getPortForDir
                   (resolved Samples.world_late Samples.project))) = false).
    { intros j Hj.
      destruct j as [|[|[|j]]]; [lia|reflexivity|reflexivity|lia]. }
    destruct (Huntil 3%nat Hk Hbefore eq_refl) as (_ & _ & Hcount).
    exact Hcount.
Defined.

(** C4 fails as worded: where the directory does not exist, the first
    health check fails, the binary is found and no check ever succeeds,
    yet the spawn of the server throws, no poll attempt is made and
    activation completes with that exception. *)
Lemma activation_rejects_when_spawn_throws :
  let w := Scenarios.world_no_directory in
  let realDir := resolved w Samples.project in
  let url := health_url (getPortForDir realDir) in
  let out := SemaPlugin w (num := Z) Samples.project initial in
  answers_2xx w 0 url = false
  /\ truthy_opt (which_of w (js "sema")) = true
  /\ (forall k, answers_2xx w k url = false)
  /\ fst out = Throw SpawnError
  /\ trace (snd out)
     = [Fetch url 500; Which (js "sema");
        Spawn [js "sema"; js "serve"] (detached_in realDir)]
  /\ poll_attempts (trace (snd out)) = 0%nat
  /\ fst out <> Normal (tools w realDir).
Proof.
  cbv zeta.
  split; [reflexivity|]. split; [reflexivity|].
  split; [intros k; reflexivity|].
  rewrite (activation_launch_throws Scenarios.world_no_directory Samples.project
             eq_refl eq_refl eq_refl).
  cbn [fst snd trace].
  split; [reflexivity|]. split; [reflexivity|]. split; [reflexivity|].
  discriminate.
Qed.

(** C5. If the first health check of activation is answered, activation
    does nothing more than that probe: no child is spawned and no poll is
    made. A child is spawned during activation only when the first check
    failed and the binary was found, and then it is the one launch of
    the server, in the resolved directory. *)
Theorem activation_launch_only_when_down
    (w : World) (num : Type) (I : Number num) (directory : JSString) :
  let realDir := resolved w directory in
  let url := health_url (getPortForDir realDir) in
  let out := SemaPlugin w directory initial in
  (fst (checkServerHealth w (getPortForDir realDir) 500 initial) = Normal true ->
   fst out = Normal (tools w realDir)
   /\ trace (snd out) = [Fetch url 500]
   /\ spawns (trace (snd out)) = []
   /\ poll_attempts (trace (snd out)) = 0%nat)
  /\ (spawns (trace (snd out)) <> [] ->
      fst (checkServerHealth w (getPortForDir realDir) 500 initial) = Normal false
      /\ truthy_opt (which_of w (js "sema")) = true
      /\ spawns (trace (snd out))
         = [Spawn [js "sema"; js "serve"] (detached_in realDir)]).
Proof.
  intros realDir url out.
  assert (Hprobe : fst (checkServerHealth w (getPortForDir realDir) 500 initial)
                   = Normal (answers_2xx w 0 url)).
  { rewrite checkServerHealth_run. reflexivity. }
  rewrite Hprobe. split.
  - intros Hup. injection Hup as Hup. unfold out.
    rewrite (activation_reuses w directory Hup). cbn [fst snd trace].
    repeat split.
  - intros Hspawn. unfold out in *.
    destruct (answers_2xx w 0 url) eqn:Hfirst.
    + rewrite (activation_reuses w directory Hfirst) in Hspawn.
      exfalso. apply Hspawn. reflexivity.
    + destruct (truthy_opt (which_of w (js "sema"))) eqn:Hwhich.
      * destruct (spawn_of w [js "sema"; js "serve"]
                    (detached_in (resolved w directory))) as [child|] eqn:Estart.
        -- destruct (activation_launches w directory child Hfirst Hwhich Estart)
             as [k [_ E]].
           rewrite E. cbn [fst snd trace].
           split; [reflexivity|]. split; [reflexivity|]. apply spawns_launch.
        -- rewrite (activation_launch_throws w directory Hfirst Hwhich Estart).
           cbn [fst snd trace].
           split; [reflexivity|]. split; reflexivity.
      * rewrite (activation_gives_up w directory Hfirst Hwhich) in Hspawn.
        exfalso. apply Hspawn. reflexivity.
Qed.

Lemma activation_launch_only_when_down_witness :
  trace (snd (SemaPlugin Samples.world_up (num := Z) Samples.project initial))
  = [Fetch (health_url (getPortForDir Samples.project)) 500]
  /\ truthy_opt (which_of Samples.world_down (js "sema")) = true.
Proof.
  split.
  - destruct (activation_launch_only_when_down Samples.world_up Z IntegerNumber
                Samples.project) as [Hup _].
    destruct (Hup eq_refl) as (_ & Htrace & _). exact Htrace.
  - destruct (activation_launch_only_when_down Samples.world_down Z
                IntegerNumber Samples.project) as [_ Hdown].
    assert (Hspawn : spawns (trace (snd (SemaPlugin Samples.world_down (num := Z)
                                           Samples.project initial))) <> []).
    { vm_compute. discriminate. }
    destruct (Hdown Hspawn) as (_ & Hwhich & _). exact Hwhich.
Defined.

(** ** The tool callbacks *)

Section Callbacks.
Variable w : World.
Context {num : Type} `{Number num}.

(** One callback run: one call of [spawn], and the result made from the
    child, or the exception of [spawn] passed on. *)
Lemma run_result (t : Tool) (cmd : list JSString) (opts : SpawnOptions)
    (s : State) :
  run w t cmd opts s
  = match spawn_of w cmd opts with
    | Some child =>
        (Normal (Spec.prefixed_result t child), log (Spawn cmd opts) s)
    | None => (Throw SpawnError, log (Spawn cmd opts) s)
    end.
Proof.
  unfold run, bind, spawn, Spec.prefixed_result, or_else. cbv zeta.
  destruct (spawn_of w cmd opts) as [child|]; [|reflexivity].
  destruct (exited child =? 0); cbn [negb]; [reflexivity|].
  destruct (truthy (stderr child)); reflexivity.
Qed.

Lemma run_trace (t : Tool) (cmd : list JSString) (opts : SpawnOptions)
    (s : State) :
  snd (run w t cmd opts s) = log (Spawn cmd opts) s.
Proof.
  rewrite run_result. destruct (spawn_of w cmd opts); reflexivity.
Qed.

Lemma invoke_tools (realDir : JSString) (c : Call num) (s : State) :
  invoke (tools w realDir) c s
  = run w (tool_of c) (cmd_of c) (opts_of realDir c) s.
Proof. destruct c; reflexivity. Qed.

Lemma truthy_false (x : JSString) : truthy x = false <-> x = [].
Proof. destruct x; simpl; split; intros E; congruence. Qed.

(** The callbacks of an activation that completes are those closed over
    the resolved directory. *)
Lemma SemaPlugin_hooks (directory : JSString) (hooks : Hooks) (s st : State) :
  SemaPlugin w directory s = (Normal hooks, st) ->
  hooks = tools w (resolved w directory).
Proof.
  rewrite SemaPlugin_supervise.
  destruct (supervise w (resolved w directory)
              (getPortForDir (resolved w directory)) s) as [[[]|e] s'];
    intros E; [|discriminate E].
  injection E as E _. symmetry. exact E.
Qed.

Lemma children_app (a b : list Event) :
  children w (a ++ b) = children w a ++ children w b.
Proof. apply filter_app. Qed.

End Callbacks.

(** C2, as the code has it. For every call of one of the four tools whose
    call of [spawn] returns a child process: on exit code 0 the call
    returns the child's standard output as it is; on another exit code it
    returns "Error: " followed by the child's standard error if that is not
    empty, and otherwise "Error: " followed by the tool's fallback phrase
    ("sema command failed", "sema find command failed", "sema refs command
    failed", "sema query command failed"). The call returns one string and
    completes normally. *)
Theorem tool_result_contract
    (w : World) (num : Type) (I : Number num) (realDir : JSString)
    (c : Call num) (s : State) (child : Child) :
  let out := invoke (tools w realDir) c s in
  spawn_of w (cmd_of c) (opts_of realDir c) = Some child ->
  (exists r, fst out = Normal r)
  /\ (exited child = 0 -> fst out = Normal (stdout child))
  /\ (exited child <> 0 -> stderr child <> [] ->
      fst out = Normal (js "Error: " ++ stderr child))
  /\ (exited child <> 0 -> stderr child = [] ->
      fst out = Normal (js "Error: " ++ fallback (tool_of c)))
  /\ fallback Sema = js "sema command failed"
  /\ fallback SemaFind = js "sema find command failed"
  /\ fallback SemaRefs = js "sema refs command failed"
  /\ fallback SemaQuery = js "sema query command failed".
Proof.
  intros out Hchild. unfold out. rewrite invoke_tools, run_result, Hchild.
  cbn [fst]. unfold Spec.prefixed_result.
  split; [eexists; reflexivity|].
  split; [|split; [|split]].
  - intros E. rewrite E. reflexivity.
  - intros E Herr. apply Z.eqb_neq in E. rewrite E.
    destruct (truthy (stderr child)) eqn:T; [reflexivity|].
    apply truthy_false in T. contradiction.
  - intros E Herr. apply Z.eqb_neq in E. rewrite E, Herr. reflexivity.
  - repeat split.
Qed.

Lemma tool_result_contract_witness :
  fst (invoke (tools Samples.world_up Samples.project)
         (CallSema Samples.search_foo) initial) = Normal (js "RESULT")
  /\ fst (invoke (tools Samples.world_late Samples.project)
            (CallRefs {| refs_symbol := js "parseConfig" |}) initial)
     = Normal (js "Error: boom")
  /\ fst (invoke (tools Samples.world_down Samples.project)
            (CallQuery Samples.query_full) initial)
     = Normal (js "Error: sema query command failed").
Proof.
  split; [|split].
  - destruct (tool_result_contract Samples.world_up Z IntegerNumber
                Samples.project (CallSema Samples.search_foo) initial
                Samples.result_exit_0 eq_refl)
      as (_ & Hzero & _).
    exact (Hzero eq_refl).
  - destruct (tool_result_contract Samples.world_late Z IntegerNumber
                Samples.project (CallRefs {| refs_symbol := js "parseConfig" |})
                initial Samples.boom_exit_1 eq_refl)
      as (_ & _ & Herr & _).
    apply Herr; discriminate.
  - destruct (tool_result_contract Samples.world_down Z IntegerNumber
                Samples.project (CallQuery Samples.query_full) initial
                Samples.no_output_exit_1 eq_refl)
      as (_ & _ & _ & Hfallback & _).
    apply Hfallback; [discriminate|reflexivity].
Defined.

(** C2 fails as worded, twice. A search whose child exits with code 1 and
    writes nothing to standard error returns "Error: sema command failed",
    not the fallback phrase "sema command failed". And where the binary is
    not installed, [spawn] throws and the call of the search tool completes
    with that exception: no string is returned. *)
Lemma tool_result_not_as_worded :
  (let out := invoke (tools Samples.world_down Samples.project)
                (CallSema Samples.search_foo) initial in
   spawn_of Samples.world_down (sema_cmd Samples.search_foo) piped
   = Some Samples.no_output_exit_1
   /\ exited Samples.no_output_exit_1 = 1
   /\ stderr Samples.no_output_exit_1 = js ""
   /\ fst out = Normal (js "Error: sema command failed")
   /\ Spec.worded_result Sema Samples.no_output_exit_1
      = js "sema command failed"
   /\ fst out <> Normal (Spec.worded_result Sema Samples.no_output_exit_1))
  /\ (let out := invoke (tools Scenarios.world_no_binary Samples.project)
                   (CallSema Samples.search_foo) initial in
      which_of Scenarios.world_no_binary (js "sema") = None
      /\ fst out = Throw SpawnError
      /\ forall r, fst out <> Normal r).
Proof.
  cbv zeta. split.
  - split; [reflexivity|]. split; [reflexivity|]. split; [reflexivity|].
    split; [reflexivity|]. split; [reflexivity|]. discriminate.
  - split; [reflexivity|]. split; [reflexivity|]. intros r. discriminate.
Qed.

(** C9, as the code has it. Each callback that activation returns makes
    exactly one call of [spawn] per tool call: find-symbol, find-references
    and structural-query with the working directory set to the resolved
    project directory, search with no working directory set; and where
    that call of [spawn] returns, exactly one child process is started. *)
Theorem tool_spawns_once
    (w : World) (num : Type) (I : Number num) (directory : JSString)
    (hooks : Hooks) (st : State) :
  SemaPlugin w directory initial = (Normal hooks, st) ->
  forall (c : Call num) (s : State),
    let opts := opts_of (resolved w directory) c in
    let after := trace (snd (invoke hooks c s)) in
    after = trace s ++ [Spawn (cmd_of c) opts]
    /\ spawns after = spawns (trace s) ++ [Spawn (cmd_of c) opts]
    /\ opt_cwd opts
       = match c with
         | CallSema _ => None
         | CallFind _ => Some (resolved w directory)
         | CallRefs _ => Some (resolved w directory)
         | CallQuery _ => Some (resolved w directory)
         end
    /\ (forall child : Child,
           spawn_of w (cmd_of c) opts = Some child ->
           children w after = children w (trace s) ++ [Spawn (cmd_of c) opts]).
Proof.
  intros Hactive c s opts after.
  apply SemaPlugin_hooks in Hactive. subst hooks.
  unfold after. rewrite invoke_tools, run_trace. cbn [log trace].
  split; [reflexivity|]. split; [|split].
  - rewrite spawns_app. reflexivity.
  - destruct c; reflexivity.
  - intros child Hchild. rewrite children_app. f_equal.
    unfold children. cbn [filter started]. fold opts. rewrite Hchild.
    reflexivity.
Qed.

Lemma tool_spawns_once_witness :
  children Samples.world_up
    (trace (snd (invoke (tools Samples.world_up (resolved Samples.world_up
                                                   Samples.project))
                   (CallFind Samples.find_parse_empty_kind) initial)))
  = [Spawn (find_cmd Samples.find_parse_empty_kind)
           (piped_in Samples.project)].
Proof.
  assert (Hactive : SemaPlugin Samples.world_up (num := Z) Samples.project initial
                    = (Normal (tools Samples.world_up
                                 (resolved Samples.world_up Samples.project)),
                       {| trace := [Fetch (probe_url Samples.world_up
                                             Samples.project) 500];
                          fetches := 1 |})).
  { apply (activation_reuses Samples.world_up Samples.project). reflexivity. }
  destruct (tool_spawns_once Samples.world_up Z IntegerNumber Samples.project
              _ _ Hactive (CallFind Samples.find_parse_empty_kind) initial)
    as (_ & _ & _ & Hchildren).
  exact (Hchildren Samples.result_exit_0 eq_refl).
Defined.

(** C9 fails as worded: where the binary is not installed activation still
    returns the callbacks, and a call of find-symbol makes its call of
    [spawn], which throws: no child process is started. *)
Lemma tool_call_without_child :
  let w := Scenarios.world_no_binary in
  let hooks := tools w (resolved w Samples.project) in
  let out := invoke hooks (CallFind Samples.find_parse_empty_kind) initial in
  fst (SemaPlugin w (num := Z) Samples.project initial) = Normal hooks
  /\ spawns (trace (snd out))
     = [Spawn (find_cmd Samples.find_parse_empty_kind)
              (piped_in Samples.project)]
  /\ children w (trace (snd out)) = []
  /\ fst out = Throw SpawnError.
Proof.
  cbv zeta. split.
  - rewrite (activation_gives_up Scenarios.world_no_binary Samples.project);
      reflexivity.
  - split; [reflexivity|]. split; reflexivity.
Qed.

(** ** Activation in every environment *)

Section EveryActivation.
Variable w : World.
Context {num : Type} `{Number num}.

(** The loop, whatever the probes answer: it makes [k] attempts, at least
    one if it has a turn; every probe but the last one failed; and it stops
    short of its turns only behind a probe that was answered. *)
Lemma poll_outcome (port : Z) (turns : nat) :
  forall s : State,
  exists k, (k <= turns)%nat
    /\ ((0 < turns)%nat -> (0 < k)%nat)
    /\ poll w port turns s
       = (Normal tt,
          {| trace := trace s ++ polls (health_url port) k;
             fetches := fetches s + k |})
    /\ (forall j, (S j < k)%nat ->
                  answers_2xx w (fetches s + j) (health_url port) = false)
    /\ ((k < turns)%nat ->
        exists k', k = S k'
          /\ answers_2xx w (fetches s + k') (health_url port) = true).
Proof.
  induction turns as [|turns IH]; intros s.
  - exists 0%nat. split; [lia|]. split; [lia|]. split.
    + simpl. unfold ret. rewrite app_nil_r, Nat.add_0_r.
      destruct s; reflexivity.
    + split; [intros j Hj; lia|intros Hk; lia].
  - rewrite poll_step.
    destruct (answers_2xx w (fetches s) (health_url port)) eqn:Efirst.
    + exists 1%nat. split; [lia|]. split; [lia|]. split.
      * rewrite Nat.add_1_r. reflexivity.
      * split; [intros j Hj; lia|].
        intros _. exists 0%nat. split; [reflexivity|].
        rewrite Nat.add_0_r. exact Efirst.
    + destruct (IH {| trace := trace s ++ polls (health_url port) 1;
                      fetches := S (fetches s) |})
        as (k & Hk & _ & E & Hbefore & Hstop).
      cbn [trace fetches] in *.
      exists (S k). split; [lia|]. split; [lia|]. split.
      * rewrite E. rewrite <- app_assoc. cbn [app polls].
        rewrite (Nat.add_succ_r (fetches s) k). reflexivity.
      * split.
        -- intros j Hj. destruct j as [|j].
           ++ rewrite Nat.add_0_r. exact Efirst.
           ++ rewrite Nat.add_succ_r. apply Hbefore. lia.
        -- intros Hlt. destruct Hstop as (k' & -> & Hup); [lia|].
           exists (S k'). split; [reflexivity|].
           rewrite Nat.add_succ_r. exact Hup.
Qed.

Lemma probes_polls (url : JSString) (k : nat) : probes (polls url k) = k.
Proof.
  unfold probes. induction k as [|k IH]; [reflexivity|].
  simpl. rewrite IH. reflexivity.
Qed.

Lemma probes_app (a b : list Event) : probes (a ++ b) = (probes a + probes b)%nat.
Proof. unfold probes. rewrite filter_app. apply length_app. Qed.

Lemma slept_polls (url : JSString) (k : nat) :
  slept (polls url k) = 100 * Z.of_nat k.
Proof.
  induction k as [|k IH]; [reflexivity|].
  change (slept (polls url (S k))) with (100 + (0 + slept (polls url k))).
  rewrite IH. lia.
Qed.

Lemma slept_app (a b : list Event) : slept (a ++ b) = slept a + slept b.
Proof.
  induction a as [|e a IH]; [reflexivity|].
  change (slept ((e :: a) ++ b)) with (sleep_ms e + slept (a ++ b)).
  change (slept (e :: a)) with (sleep_ms e + slept a).
  rewrite IH. lia.
Qed.

(** The four ways activation can run, with what the environment answered. *)
Lemma activation_cases (directory : JSString) :
  let url := probe_url w directory in
  let out := SemaPlugin w directory initial in
  (answers_2xx w 0 url = true
   /\ out = (Normal (tools w (resolved w directory)),
             {| trace := [Fetch url 500]; fetches := 1 |}))
  \/ (answers_2xx w 0 url = false
      /\ truthy_opt (which_of w (js "sema")) = false
      /\ out = (Normal (tools w (resolved w directory)),
                {| trace := [Fetch url 500; Which (js "sema")];
                   fetches := 1 |}))
  \/ (answers_2xx w 0 url = false
      /\ truthy_opt (which_of w (js "sema")) = true
      /\ spawn_of w [js "sema"; js "serve"]
           (detached_in (resolved w directory)) = None
      /\ out = (Throw SpawnError,
                {| trace := [Fetch url 500; Which (js "sema");
                             Spawn [js "sema"; js "serve"]
                                   (detached_in (resolved w directory))];
                   fetches := 1 |}))
  \/ (answers_2xx w 0 url = false
      /\ truthy_opt (which_of w (js "sema")) = true
      /\ spawn_of w [js "sema"; js "serve"]
           (detached_in (resolved w directory)) <> None
      /\ exists k, (1 <= k <= 30)%nat
           /\ out = (Normal (tools w (resolved w directory)),
                     {| trace := launch (resolved w directory) url
                                   ++ polls url k;
                        fetches := S k |})
           /\ (forall j, (1 <= j < k)%nat -> answers_2xx w j url = false)
           /\ ((k < 30)%nat -> answers_2xx w k url = true)).
Proof.
  intros url out. unfold out.
  destruct (answers_2xx w 0 url) eqn:Efirst.
  { left. split; [reflexivity|]. apply activation_reuses. exact Efirst. }
  destruct (truthy_opt (which_of w (js "sema"))) eqn:Ewhich.
  2:{ right. left. split; [reflexivity|]. split; [reflexivity|].
      apply activation_gives_up; assumption. }
  destruct (spawn_of w [js "sema"; js "serve"]
              (detached_in (resolved w directory))) as [child|] eqn:Estart.
  2:{ right. right. left. split; [reflexivity|]. split; [reflexivity|].
      split; [reflexivity|]. apply activation_launch_throws; assumption. }
  right. right. right.
  split; [reflexivity|]. split; [reflexivity|]. split; [discriminate|].
  destruct (poll_outcome (getPortForDir (resolved w directory)) 30
              {| trace := launch (resolved w directory) url;
                 fetches := 1 |})
    as (k & Hk & Hpos & E & Hbefore & Hstop).
  cbn [trace fetches] in E, Hbefore, Hstop.
  fold (probe_url w directory) in E, Hbefore, Hstop.
  fold url in E, Hbefore, Hstop.
  exists k. split; [lia|]. split; [|split].
  - apply SemaPlugin_run. rewrite supervise_run.
    cbn [fetches initial trace]. fold (probe_url w directory). fold url.
    rewrite Efirst, Ewhich, Estart. exact E.
  - intros j Hj. destruct j as [|j]; [lia|].
    apply (Hbefore j). lia.
  - intros Hlt. destruct (Hstop Hlt) as (k' & -> & Hup). exact Hup.
Qed.

End EveryActivation.

(** X1. In every environment the calls of activation into the runtime are
    one of four sequences: the first probe alone; the first probe and the
    lookup of the binary; the first probe, the lookup and a spawn of
    [sema serve] that throws; or the first probe, the lookup, the spawn of
    [sema serve] in the resolved directory, its unref, and then between 1
    and 30 poll attempts. Activation completes with the exception of the
    spawn in the third, and normally, with the callbacks of the resolved
    directory, in the three others. *)
Theorem activation_trace_shapes
    (w : World) (num : Type) (I : Number num) (directory : JSString) :
  let realDir := resolved w directory in
  let url := health_url (getPortForDir realDir) in
  let out := SemaPlugin w directory initial in
  (fst out = Normal (tools w realDir) /\ trace (snd out) = [Fetch url 500])
  \/ (fst out = Normal (tools w realDir)
      /\ trace (snd out) = [Fetch url 500; Which (js "sema")])
  \/ (fst out = Throw SpawnError
      /\ spawn_of w [js "sema"; js "serve"] (detached_in realDir) = None
      /\ trace (snd out)
         = [Fetch url 500; Which (js "sema");
            Spawn [js "sema"; js "serve"] (detached_in realDir)])
  \/ (fst out = Normal (tools w realDir)
      /\ exists k, (1 <= k <= 30)%nat
           /\ trace (snd out)
              = [Fetch url 500; Which (js "sema");
                 Spawn [js "sema"; js "serve"] (detached_in realDir); Unref]
                  ++ polls url k).
Proof.
  intros realDir url out.
  pose proof (activation_cases w directory) as Hcases.
  fold out in Hcases. cbv zeta in Hcases.
  destruct Hcases as [[_ E]|[(_ & _ & E)|[(_ & _ & Hthrow & E)
                     |(_ & _ & _ & k & Hk & E & _)]]];
    rewrite E; cbn [fst snd trace].
  - left. split; reflexivity.
  - right. left. split; reflexivity.
  - right. right. left. split; [reflexivity|]. split; [exact Hthrow|reflexivity].
  - right. right. right. split; [reflexivity|].
    exists k. split; [exact Hk|reflexivity].
Qed.

(** X2. In every environment activation makes at most 31 health probes (one
    more than its poll attempts), sleeps 100 ms per poll attempt and at most
    3000 ms in all, and spawns at most one process. *)
Theorem activation_cost_bounded
    (w : World) (num : Type) (I : Number num) (directory : JSString) :
  let tr := trace (snd (SemaPlugin w directory initial)) in
  probes tr = S (poll_attempts tr)
  /\ (probes tr <= 31)%nat
  /\ fetches (snd (SemaPlugin w directory initial)) = probes tr
  /\ slept tr = 100 * Z.of_nat (poll_attempts tr)
  /\ 0 <= slept tr <= 3000
  /\ (List.length (spawns tr) <= 1)%nat.
Proof.
  intros tr. unfold tr.
  pose proof (activation_cases w directory) as Hcases. cbv zeta in Hcases.
  destruct Hcases as [[_ E]|[(_ & _ & E)|[(_ & _ & _ & E)
                     |(_ & _ & _ & k & Hk & E & _)]]];
    rewrite E; cbn [snd trace fetches].
  - unfold probes, slept. simpl. repeat split; lia.
  - unfold probes, slept. simpl. repeat split; lia.
  - unfold probes, slept. simpl. repeat split; lia.
  - rewrite poll_attempts_launch, spawns_launch.
    rewrite probes_app, slept_app, probes_polls, slept_polls.
    change (probes (launch (resolved w directory) (probe_url w directory)))
      with 1%nat.
    change (slept (launch (resolved w directory) (probe_url w directory)))
      with 0.
    repeat split; simpl List.length; lia.
Qed.

(** X3. When activation has launched the server and completes normally,
    it has made between 1 and 30 poll attempts, every probe before its last
    attempt failed, and if it made fewer than 30 attempts then the probe of
    its last attempt was answered with a 2xx status: activation returns
    early only behind a healthy server. *)
Theorem activation_early_return_is_healthy
    (w : World) (num : Type) (I : Number num) (directory : JSString) :
  let url := health_url (getPortForDir (resolved w directory)) in
  let out := SemaPlugin w directory initial in
  let tr := trace (snd out) in
  spawns tr <> [] ->
  fst out = Normal (tools w (resolved w directory)) ->
  (1 <= poll_attempts tr <= 30)%nat
  /\ (forall j, (j < poll_attempts tr)%nat -> answers_2xx w j url = false)
  /\ ((poll_attempts tr < 30)%nat -> answers_2xx w (poll_attempts tr) url = true).
Proof.
  intros url out tr Hspawn Hnormal. unfold tr, out in *.
  pose proof (activation_cases w directory) as Hcases. cbv zeta in Hcases.
  destruct Hcases as [[_ E]|[(_ & _ & E)|[(_ & _ & _ & E)
                     |(Hfirst & _ & _ & k & Hk & E & Hbefore & Hstop)]]];
    rewrite E in *; cbn [fst snd trace] in *.
  - exfalso. apply Hspawn. reflexivity.
  - exfalso. apply Hspawn. reflexivity.
  - discriminate Hnormal.
  - rewrite poll_attempts_launch. split; [exact Hk|]. split.
    + intros j Hj. destruct j as [|j]; [exact Hfirst|].
      apply Hbefore. lia.
    + exact Hstop.
Qed.

Lemma activation_early_return_is_healthy_witness :
  answers_2xx Samples.world_late 3
    (health_url (getPortForDir (resolved Samples.world_late Samples.project)))
  = true.
Proof.
  assert (Hspawn : spawns (trace (snd (SemaPlugin Samples.world_late (num := Z)
                                         Samples.project initial))) <> []).
  { vm_compute. discriminate. }
  assert (Hnormal : fst (SemaPlugin Samples.world_late (num := Z)
                           Samples.project initial)
                    = Normal (tools Samples.world_late
                                (resolved Samples.world_late Samples.project))).
  { destruct (activation_launches Samples.world_late Samples.project
                Samples.boom_exit_1 eq_refl eq_refl eq_refl) as [k [_ E]].
    rewrite E. reflexivity. }
  destruct (activation_early_return_is_healthy Samples.world_late Z
              IntegerNumber Samples.project Hspawn Hnormal) as (_ & _ & Hearly).
  assert (Hlt : (poll_attempts
                   (trace (snd (SemaPlugin Samples.world_late (num := Z)
                                  Samples.project initial))) < 30)%nat).
  { vm_compute. lia. }
  exact (Hearly Hlt).
Defined.

(** X4. If the first health check fails and the lookup of the binary gives
    nothing (null, or an empty path), activation stops there: nothing is
    spawned, nothing is slept, no further probe is made, and the callbacks
    are returned all the same. *)
Theorem activation_without_binary
    (w : World) (num : Type) (I : Number num) (directory : JSString) :
  let realDir := resolved w directory in
  let url := health_url (getPortForDir realDir) in
  let out := SemaPlugin w directory initial in
  fst (checkServerHealth w (getPortForDir realDir) 500 initial) = Normal false ->
  truthy_opt (which_of w (js "sema")) = false ->
  fst out = Normal (tools w realDir)
  /\ trace (snd out) = [Fetch url 500; Which (js "sema")]
  /\ spawns (trace (snd out)) = []
  /\ slept (trace (snd out)) = 0
  /\ probes (trace (snd out)) = 1%nat.
Proof.
  intros realDir url out Hprobe Hwhich.
  rewrite checkServerHealth_run in Hprobe. cbn [fst fetches initial] in Hprobe.
  injection Hprobe as Hfirst. unfold out.
  rewrite (activation_gives_up w directory Hfirst Hwhich).
  cbn [fst snd trace]. repeat split.
Qed.

Lemma activation_without_binary_witness :
  trace (snd (SemaPlugin Scenarios.world_no_binary (num := Z)
                Samples.project initial))
  = [Fetch (health_url (getPortForDir Samples.project)) 500; Which (js "sema")].
Proof.
  destruct (activation_without_binary Scenarios.world_no_binary Z IntegerNumber
              Samples.project eq_refl eq_refl) as (_ & Htrace & _).
  exact Htrace.
Defined.

(** X5. Activation sees its directory only through the resolved path: two
    directories with the same resolved path (a symbolic link and its
    target, or a directory whose resolution fails and that same path) probe
    the same port, make the same calls and get the same callbacks. *)
Theorem activation_alias
    (w : World) (num : Type) (I : Number num) (d1 d2 : JSString) (s : State) :
  resolved w d1 = resolved w d2 ->
  SemaPlugin w d1 s = SemaPlugin w d2 s.
Proof.
  intros Hsame.
  rewrite (SemaPlugin_supervise w d1 s), (SemaPlugin_supervise w d2 s).
  rewrite Hsame. reflexivity.
Qed.

Lemma activation_alias_witness :
  SemaPlugin Scenarios.world_symlink (num := Z) Scenarios.link initial
  = SemaPlugin Scenarios.world_symlink (num := Z) Samples.project initial.
Proof.
  apply (activation_alias Scenarios.world_symlink Z IntegerNumber
           Scenarios.link Samples.project initial).
  reflexivity.
Defined.

(** ** Further facts on the command lines *)

Section CommandLines.
Context {num : Type} `{Number num}.

Lemma if_requested_length (o : option bool) (flag : JSString) :
  (List.length (Spec.if_requested o flag) <= 1)%nat.
Proof. destruct o as [[|]|]; simpl; lia. Qed.

Lemma if_supplied_length {A : Type} (o : option A) (flag : JSString)
    (value : A -> JSString) :
  (List.length (Spec.if_supplied o (fun v => [flag; value v])) <= 2)%nat.
Proof. destruct o; simpl; lia. Qed.

Lemma if_supplied_length_1 (o : option JSString) :
  (List.length (Spec.if_supplied o (fun v => [v])) <= 1)%nat.
Proof. destruct o; simpl; lia. Qed.

End CommandLines.

(** X6. A boolean flag given as false leaves each command line as if the
    flag were absent: keyword = false in search, exported = false and
    prefix = false in find-symbol, exported = false in structural query. *)
Theorem false_flag_is_absent (num : Type) (I : Number num) :
  (forall q p c l g e,
      sema_cmd {| query := q; path := p; n := c; lang := l; glob := g;
                  exclude := e; keyword := Some false |}
      = sema_cmd {| query := q; path := p; n := c; lang := l; glob := g;
                    exclude := e; keyword := None |})
  /\ (forall sym k x,
         find_cmd {| find_symbol := sym; find_kind := k;
                     find_exported := Some false; find_prefix := x |}
         = find_cmd {| find_symbol := sym; find_kind := k;
                       find_exported := None; find_prefix := x |})
  /\ (forall sym k x,
         find_cmd {| find_symbol := sym; find_kind := k;
                     find_exported := x; find_prefix := Some false |}
         = find_cmd {| find_symbol := sym; find_kind := k;
                       find_exported := x; find_prefix := None |})
  /\ (forall k lo hi r p l,
         query_cmd {| kind := k; exported := Some false; min_complexity := lo;
                      max_complexity := hi; role := r; parent := p;
                      language := l |}
         = query_cmd {| kind := k; exported := None; min_complexity := lo;
                        max_complexity := hi; role := r; parent := p;
                        language := l |}).
Proof.
  split; [|split; [|split]]; intros.
  - rewrite !sema_cmd_effective. reflexivity.
  - rewrite !find_cmd_effective. reflexivity.
  - rewrite !find_cmd_effective. reflexivity.
  - rewrite !query_cmd_effective. reflexivity.
Qed.

(** X7. Every command line starts with the binary "sema", followed for
    find, refs and query by the subcommand; the query of a search and the
    symbol of find and refs are always on it; and its size is bounded: 2 to
    12 tokens for search, 3 to 7 for find-symbol, 3 for find-references,
    2 to 15 for structural query. *)
Theorem command_line_bounds (num : Type) (I : Number num) :
  (forall args : SemaArgs num,
      hd_error (sema_cmd args) = Some (js "sema")
      /\ In (query args) (sema_cmd args)
      /\ (2 <= List.length (sema_cmd args) <= 12)%nat)
  /\ (forall args : FindArgs,
         firstn 3 (find_cmd args) = [js "sema"; js "find"; find_symbol args]
         /\ (3 <= List.length (find_cmd args) <= 7)%nat)
  /\ (forall args : RefsArgs,
         firstn 3 (refs_cmd args) = [js "sema"; js "refs"; refs_symbol args]
         /\ List.length (refs_cmd args) = 3%nat)
  /\ (forall args : QueryArgs num,
         firstn 2 (query_cmd args) = [js "sema"; js "query"]
         /\ (2 <= List.length (query_cmd args) <= 15)%nat).
Proof.
  split; [|split; [|split]]; intros args.
  - rewrite sema_cmd_effective.
    unfold Spec.search_tokens, Spec.effective_sema.
    cbn [query path n lang glob exclude keyword].
    split; [reflexivity|]. split.
    + apply in_or_app. right. apply in_or_app. right. left. reflexivity.
    + rewrite !length_app.
      pose proof (if_requested_length (keyword args) (js "-k")).
      pose proof (if_supplied_length_1 (Spec.non_empty (path args))).
      pose proof (if_supplied_length (Spec.non_falsy (n args)) (js "-n") to_string).
      pose proof (if_supplied_length (Spec.non_empty (lang args)) (js "-l")
                    (fun v => v)).
      pose proof (if_supplied_length (Spec.non_empty (glob args)) (js "-g")
                    (fun v => v)).
      pose proof (if_supplied_length (Spec.non_empty (exclude args))
                    (js "--exclude") (fun v => v)).
      cbv beta in *. simpl List.length. lia.
  - rewrite find_cmd_effective.
    unfold Spec.find_tokens, Spec.effective_find.
    cbn [find_symbol find_kind find_exported find_prefix].
    split; [reflexivity|].
    rewrite !length_app.
    pose proof (if_supplied_length (Spec.non_empty (find_kind args))
                  (js "--kind") (fun v => v)).
    pose proof (if_requested_length (find_exported args) (js "--exported")).
    pose proof (if_requested_length (find_prefix args) (js "--prefix")).
    cbv beta in *. simpl List.length. lia.
  - split; reflexivity.
  - rewrite query_cmd_effective.
    unfold Spec.query_tokens, Spec.effective_query.
    cbn [kind exported min_complexity max_complexity role parent language].
    split; [reflexivity|].
    rewrite !length_app.
    pose proof (if_supplied_length (Spec.non_empty (kind args))
                  (js "--kind") (fun v => v)).
    pose proof (if_requested_length (exported args) (js "--exported")).
    pose proof (if_supplied_length (min_complexity args)
                  (js "--min-complexity") to_string).
    pose proof (if_supplied_length (max_complexity args)
                  (js "--max-complexity") to_string).
    pose proof (if_supplied_length (Spec.non_empty (role args))
                  (js "--role") (fun v => v)).
    pose proof (if_supplied_length (Spec.non_empty (parent args))
                  (js "--parent") (fun v => v)).
    pose proof (if_supplied_length (Spec.non_empty (language args))
                  (js "--language") (fun v => v)).
    cbv beta in *. simpl List.length. lia.
Qed.

(** X8. The search command line does not tell its query from its options:
    a keyword-mode search for a non-empty text [q] and a plain search for
    the text "-k" in the path [q] give the same command line. *)
Theorem keyword_flag_ambiguous
    (num : Type) (I : Number num) (q : JSString)
    (c : option num) (l g e : option JSString) :
  q <> [] ->
  sema_cmd {| query := q; path := None; n := c; lang := l; glob := g;
              exclude := e; keyword := Some true |}
  = sema_cmd {| query := js "-k"; path := Some q; n := c; lang := l;
                glob := g; exclude := e; keyword := None |}.
Proof.
  intros Hq. rewrite !sema_cmd_effective.
  destruct q as [|u q]; [contradiction|]. reflexivity.
Qed.

Lemma keyword_flag_ambiguous_witness :
  sema_cmd Samples.search_foo_keyword_10
  = sema_cmd {| query := js "-k"; path := Some (js "foo"); n := Some 10;
                lang := None; glob := None; exclude := None;
                keyword := None |}.
Proof.
  apply (keyword_flag_ambiguous Z IntegerNumber (js "foo") (Some 10)
           None None None).
  discriminate.
Defined.

(** ** Further facts on the results of the callbacks *)

(** X9. What a tool call returns depends on the child only through whether
    its exit code is 0 and through one of its streams: two children that
    both fail with the same standard error give the same result whatever
    their exit codes and standard outputs, two that both succeed with the
    same standard output give the same result whatever their standard
    errors; and the result of a failed call is "Error: " followed by a text
    that is never empty. *)
Theorem tool_result_depends_on
    (w1 w2 : World) (num : Type) (I : Number num) (dir1 dir2 : JSString)
    (c : Call num) (s1 s2 : State) (child1 child2 : Child) :
  let out1 := fst (invoke (tools w1 dir1) c s1) in
  let out2 := fst (invoke (tools w2 dir2) c s2) in
  spawn_of w1 (cmd_of c) (opts_of dir1 c) = Some child1 ->
  spawn_of w2 (cmd_of c) (opts_of dir2 c) = Some child2 ->
  (exited child1 <> 0 -> exited child2 <> 0 ->
   stderr child1 = stderr child2 -> out1 = out2)
  /\ (exited child1 = 0 -> exited child2 = 0 ->
      stdout child1 = stdout child2 -> out1 = out2)
  /\ (exited child1 <> 0 ->
      exists rest, rest <> [] /\ out1 = Normal (js "Error: " ++ rest)).
Proof.
  intros out1 out2 Hchild1 Hchild2. unfold out1, out2.
  rewrite !invoke_tools, !run_result, Hchild1, Hchild2. cbn [fst].
  unfold Spec.prefixed_result.
  split; [|split].
  - intros E1 E2 Herr. apply Z.eqb_neq in E1, E2.
    rewrite E1, E2, Herr. reflexivity.
  - intros E1 E2 Hout. rewrite E1, E2, Hout. reflexivity.
  - intros E1. apply Z.eqb_neq in E1. rewrite E1.
    destruct (stderr child1) as [|u rest] eqn:Eerr.
    + exists (fallback (tool_of c)). split; [|reflexivity].
      destruct (tool_of c); discriminate.
    + exists (u :: rest). split; [discriminate|reflexivity].
Qed.

Lemma tool_result_depends_on_witness :
  fst (invoke (tools Samples.world_late Samples.project)
         (CallFind Samples.find_parse_empty_kind) initial)
  = fst (invoke (tools Scenarios.world_boom_2 Scenarios.link)
           (CallFind Samples.find_parse_empty_kind) initial).
Proof.
  destruct (tool_result_depends_on Samples.world_late Scenarios.world_boom_2
              Z IntegerNumber Samples.project Scenarios.link
              (CallFind Samples.find_parse_empty_kind) initial initial
              Samples.boom_exit_1 Scenarios.boom_exit_2 eq_refl eq_refl)
    as (Hfail & _ & _).
  apply Hfail; [discriminate|discriminate|reflexivity].
Defined.

(** ** Further facts on the port deriver *)

Section HashSensitivity.

Lemma prime_inverse : (FNV_PRIME * FNV_PRIME_INVERSE) mod 2 ^ 64 = 1.
Proof. reflexivity. Qed.

(** Multiplication by the prime loses nothing modulo 2^64. *)
Lemma mul_prime_cancel (a b : Z) :
  0 <= a < 2 ^ 64 -> 0 <= b < 2 ^ 64 ->
  (a * FNV_PRIME) mod 2 ^ 64 = (b * FNV_PRIME) mod 2 ^ 64 -> a = b.
Proof.
  intros Ha Hb E.
  assert (Hback : forall x, 0 <= x < 2 ^ 64 ->
            (((x * FNV_PRIME) mod 2 ^ 64) * FNV_PRIME_INVERSE) mod 2 ^ 64 = x).
  { intros x Hx. rewrite Z.mul_mod_idemp_l by lia.
    rewrite <- Z.mul_assoc. rewrite <- Z.mul_mod_idemp_r by lia.
    rewrite prime_inverse. rewrite Z.mul_1_r. apply Z.mod_small. exact Hx. }
  rewrite <- (Hback a Ha), <- (Hback b Hb), E. reflexivity.
Qed.

Lemma lxor_small (a b k : Z) :
  0 <= k -> 0 <= a < 2 ^ k -> 0 <= b < 2 ^ k -> 0 <= Z.lxor a b < 2 ^ k.
Proof.
  intros Hk [Ha0 Ha] [Hb0 Hb]. split.
  - apply Z.lxor_nonneg. split; intros _; assumption.
  - destruct (Z.eq_dec (Z.lxor a b) 0) as [E|E]; [rewrite E; lia|].
    assert (Hpos : 0 < Z.lxor a b).
    { assert (0 <= Z.lxor a b) by (apply Z.lxor_nonneg; split; intros _; assumption).
      lia. }
    apply Z.log2_lt_pow2; [exact Hpos|].
    pose proof (Z.log2_lxor a b Ha0 Hb0) as Hlog.
    assert (Hla : a = 0 \/ Z.log2 a < k).
    { destruct (Z.eq_dec a 0); [left; assumption|right].
      apply Z.log2_lt_pow2; lia. }
    assert (Hlb : b = 0 \/ Z.log2 b < k).
    { destruct (Z.eq_dec b 0); [left; assumption|right].
      apply Z.log2_lt_pow2; lia. }
    assert (Hk' : 0 < k).
    { destruct (Z.eq_dec k 0) as [->|]; [|lia].
      change (2 ^ 0) with 1 in *. assert (a = 0) by lia. assert (b = 0) by lia.
      subst. exfalso. apply E. reflexivity. }
    destruct Hla as [->|Hla]; destruct Hlb as [->|Hlb];
      change (Z.log2 0) with 0 in *; lia.
Qed.

(** For a fixed byte, the loop body is one-to-one on 64-bit states. *)
Lemma hash_step_inj_state (h1 h2 b : Z) :
  0 <= h1 < 2 ^ 64 -> 0 <= h2 < 2 ^ 64 -> 0 <= b < 256 ->
  hash_step h1 b = hash_step h2 b -> h1 = h2.
Proof.
  intros H1 H2 Hb E. rewrite !hash_step_mod in E.
  apply mul_prime_cancel in E.
  - apply (f_equal (fun x => Z.lxor x b)) in E.
    rewrite !Z.lxor_assoc, Z.lxor_nilpotent, !Z.lxor_0_r in E. exact E.
  - apply lxor_small; lia.
  - apply lxor_small; lia.
Qed.

(** For a fixed 64-bit state, the loop body is one-to-one on bytes. *)
Lemma hash_step_inj_byte (h b1 b2 : Z) :
  0 <= h < 2 ^ 64 -> 0 <= b1 < 256 -> 0 <= b2 < 256 ->
  hash_step h b1 = hash_step h b2 -> b1 = b2.
Proof.
  intros Hh H1 H2 E. rewrite !hash_step_mod in E.
  apply mul_prime_cancel in E.
  - apply (f_equal (Z.lxor h)) in E.
    rewrite <- !Z.lxor_assoc, Z.lxor_nilpotent, !Z.lxor_0_l in E. exact E.
  - apply lxor_small; lia.
  - apply lxor_small; lia.
Qed.

Lemma hash_loop_inj_state (bytes : list Z) :
  is_bytes bytes ->
  forall h1 h2, 0 <= h1 < 2 ^ 64 -> 0 <= h2 < 2 ^ 64 ->
    hash_loop h1 bytes = hash_loop h2 bytes -> h1 = h2.
Proof.
  induction 1 as [|b bs Hb Hbs IH]; intros h1 h2 H1 H2 E.
  - exact E.
  - change (hash_loop (hash_step h1 b) bs = hash_loop (hash_step h2 b) bs) in E.
    apply IH in E; try apply hash_step_range.
    apply (hash_step_inj_state h1 h2 b); assumption.
Qed.

Lemma hash_loop_app (h : Z) (a b : list Z) :
  hash_loop h (a ++ b) = hash_loop (hash_loop h a) b.
Proof. apply fold_left_app. Qed.

End HashSensitivity.

(** X10. The 64-bit hash of the loop of [getPortForDir], before it is
    reduced modulo 1000, separates byte sequences that differ in exactly
    one byte: the same bytes before and after, two different bytes in
    between, never give the same hash. *)
Theorem hash_loop_one_byte_apart (before after : list Z) (b1 b2 : Z) :
  is_bytes after -> 0 <= b1 < 256 -> 0 <= b2 < 256 -> b1 <> b2 ->
  hash_loop FNV_OFFSET (before ++ b1 :: after)
  <> hash_loop FNV_OFFSET (before ++ b2 :: after).
Proof.
  intros Hafter H1 H2 Hne E.
  rewrite !hash_loop_app in E.
  assert (Hh : 0 <= hash_loop FNV_OFFSET before < 2 ^ 64).
  { apply hash_loop_range. unfold FNV_OFFSET. lia. }
  change (hash_loop (hash_step (hash_loop FNV_OFFSET before) b1) after
          = hash_loop (hash_step (hash_loop FNV_OFFSET before) b2) after) in E.
  apply (hash_loop_inj_state after Hafter) in E; try apply hash_step_range.
  apply Hne. apply (hash_step_inj_byte (hash_loop FNV_OFFSET before)); assumption.
Qed.

Lemma hash_loop_one_byte_apart_witness :
  hash_loop FNV_OFFSET (Scenarios.slash_a ++ 0x78 :: [0x2F])
  <> hash_loop FNV_OFFSET (Scenarios.slash_a ++ 0x79 :: [0x2F]).
Proof.
  apply (hash_loop_one_byte_apart Scenarios.slash_a [0x2F] 0x78 0x79).
  - repeat constructor; lia.
  - lia.
  - lia.
  - discriminate.
Defined.

(** X11. The deriver has 1000 ports to give: among any 1001 paths, or more,
    two get the same port. *)
Theorem ports_collide (paths : list JSString) :
  (1000 < List.length paths)%nat -> ~ NoDup (map getPortForDir paths).
Proof.
  intros Hmany Hnodup.
  assert (Hincl : incl (map getPortForDir paths) port_range).
  { intros p Hp. apply in_map_iff in Hp. destruct Hp as [cwd [<- _]].
    unfold port_range. apply in_map_iff.
    assert (Hrange : 8765 <= getPortForDir cwd <= 9764).
    { unfold getPortForDir. cbv zeta.
      pose proof (Z.mod_pos_bound (hash_loop FNV_OFFSET (Buffer_from cwd)) 1000).
      lia. }
    exists (Z.to_nat (getPortForDir cwd - 8765)). split.
    - rewrite Z2Nat.id by lia. lia.
    - apply in_seq. lia. }
  pose proof (NoDup_incl_length Hnodup Hincl) as Hlen.
  unfold port_range in Hlen. rewrite !length_map, length_seq in Hlen. lia.
Qed.

Lemma ports_collide_witness :
  ~ NoDup (map getPortForDir Scenarios.many_paths).
Proof.
  apply ports_collide.
  unfold Scenarios.many_paths. rewrite length_map, length_seq. lia.
Defined.

(** X12. For a path made of ASCII characters only, the bytes that are
    hashed are the character codes themselves: the port is 8765 plus the
    FNV-1a hash of the code units modulo 1000. *)
Theorem getPortForDir_ascii (cwd : JSString) :
  Forall (fun u => 0 <= u < 0x80) cwd ->
  getPortForDir cwd = 8765 + fnv1a64 cwd mod 1000.
Proof.
  intros Hascii. unfold getPortForDir. cbv zeta.
  rewrite (Buffer_from_ascii cwd Hascii).
  rewrite hash_loop_fnv1a64_from. reflexivity.
Qed.

Lemma getPortForDir_ascii_witness :
  getPortForDir (js "/tmp") = 8765 + fnv1a64 (js "/tmp") mod 1000.
Proof.
  apply getPortForDir_ascii. repeat constructor; lia.
Defined.

(** X13. The address of the health probe determines the port: two ports
    with the same probe address are the same port, so activations of
    directories with different ports never probe each other's server. *)
Theorem health_url_injective (p1 p2 : Z) :
  health_url p1 = health_url p2 -> p1 = p2.
Proof.
  unfold health_url. intros E.
  apply app_inv_head in E.
  assert (Hlen : forall z, base10_value (decimal z) = Some z)
    by apply base10_value_decimal.
  assert (Hdec : decimal p1 = decimal p2).
  { assert (Hl : List.length (decimal p1 ++ js "/health")
                 = List.length (decimal p2 ++ js "/health")) by (rewrite E; reflexivity).
    rewrite !length_app in Hl.
    assert (Hl' : List.length (decimal p1) = List.length (decimal p2)) by lia.
    apply (f_equal (firstn (List.length (decimal p1)))) in E.
    rewrite firstn_app, Nat.sub_diag, firstn_all, firstn_O, app_nil_r in E.
    rewrite Hl' in E.
    rewrite firstn_app, Nat.sub_diag, firstn_all, firstn_O, app_nil_r in E.
    exact E. }
  pose proof (Hlen p1) as H1. rewrite Hdec, Hlen in H1.
  injection H1 as H1. symmetry. exact H1.
Qed.

Lemma health_url_injective_witness : 8765 = 8765.
Proof.
  apply (health_url_injective 8765 8765). reflexivity.
Defined.
